(** * postmaker: the filename metadata extractor and the /new wizard

    A shallow embedding of [parse_filename] (src/bot.py and src/index.py),
    of the response router [get_response_or_callback] and of the control
    skeleton of [new_post_handler] (src/bot.py), with the properties the
    specification states about them.

    Python strings are embedded as [string].  The character functions below
    are Python's on ASCII text (code points below 128): [str.lower],
    [str.upper], [str.isdigit], [str.isspace] and the regular-expression
    classes [\d], [[a-z]] coincide with them there.  Statements that
    quantify over filenames carry the hypothesis [is_ascii_str].  *)

From Stdlib Require Import String Ascii List ZArith Lia Bool Arith.
From stdpp Require Import base option gmap.
Import ListNotations.

Local Open Scope string_scope.
Local Open Scope nat_scope.

(** ** Python string primitives on ASCII text *)

Module PyStr.

Definition code (c : ascii) : nat := nat_of_ascii c.

Definition is_ascii (c : ascii) : bool := code c <? 128.
Definition is_digit (c : ascii) : bool := (48 <=? code c) && (code c <=? 57).
Definition is_lower (c : ascii) : bool := (97 <=? code c) && (code c <=? 122).
Definition is_upper (c : ascii) : bool := (65 <=? code c) && (code c <=? 90).

(** [str.isspace] on ASCII: tab, LF, VT, FF, CR, the separators 28..31 and
    the space. *)
Definition is_space (c : ascii) : bool :=
  ((9 <=? code c) && (code c <=? 13)) || ((28 <=? code c) && (code c <=? 32)).

Definition to_lower (c : ascii) : ascii :=
  if is_upper c then ascii_of_nat (code c + 32) else c.
Definition to_upper (c : ascii) : ascii :=
  if is_lower c then ascii_of_nat (code c - 32) else c.

Fixpoint smap (f : ascii -> ascii) (s : string) : string :=
  match s with
  | EmptyString => EmptyString
  | String c r => String (f c) (smap f r)
  end.

Fixpoint sforall (p : ascii -> bool) (s : string) : bool :=
  match s with
  | EmptyString => true
  | String c r => p c && sforall p r
  end.

Fixpoint sexists (p : ascii -> bool) (s : string) : bool :=
  match s with
  | EmptyString => false
  | String c r => p c || sexists p r
  end.

Fixpoint sfilter (p : ascii -> bool) (s : string) : string :=
  match s with
  | EmptyString => EmptyString
  | String c r => if p c then String c (sfilter p r) else sfilter p r
  end.

Definition is_ascii_str (s : string) : bool := sforall is_ascii s.

(** [s.lower()], [s.upper()], [s.capitalize()] *)
Definition lower (s : string) : string := smap to_lower s.
Definition upper (s : string) : string := smap to_upper s.
Definition capitalize (s : string) : string :=
  match s with
  | EmptyString => EmptyString
  | String c r => String (to_upper c) (lower r)
  end.

(** [s.isdigit()]: every character is a digit and there is at least one. *)
Definition isdigit (s : string) : bool :=
  match s with
  | EmptyString => false
  | _ => sforall is_digit s
  end.

(** [any(c.isdigit() for c in s)] *)
Definition any_digit (s : string) : bool := sexists is_digit s.

(** [s.split(sep)] for a one-character separator: never the empty list. *)
Fixpoint split_on (sep : ascii) (s : string) : list string :=
  match s with
  | EmptyString => [EmptyString]
  | String c r =>
      if Ascii.eqb c sep then EmptyString :: split_on sep r
      else match split_on sep r with
           | [] => [String c EmptyString]
           | p :: ps => String c p :: ps
           end
  end.

(** [s.lstrip()], [s.rstrip()], [s.strip()] *)
Fixpoint lstrip (s : string) : string :=
  match s with
  | EmptyString => EmptyString
  | String c r => if is_space c then lstrip r else s
  end.

Fixpoint rstrip (s : string) : string :=
  match s with
  | EmptyString => EmptyString
  | String c r =>
      match rstrip r with
      | EmptyString => if is_space c then EmptyString else String c EmptyString
      | r' => String c r'
      end
  end.

Definition strip (s : string) : string := rstrip (lstrip s).

(** [s.lstrip('v')] *)
Fixpoint lstrip_char (x : ascii) (s : string) : string :=
  match s with
  | EmptyString => EmptyString
  | String c r => if Ascii.eqb c x then lstrip_char x r else s
  end.

(** [s.split()]: the maximal runs of non-space characters. *)
Fixpoint split_ws_aux (cur : string) (s : string) : list string :=
  match s with
  | EmptyString => match cur with EmptyString => [] | _ => [cur] end
  | String c r =>
      if is_space c
      then match cur with
           | EmptyString => split_ws_aux EmptyString r
           | _ => cur :: split_ws_aux EmptyString r
           end
      else split_ws_aux (cur ++ String c EmptyString) r
  end.
Definition split_ws (s : string) : list string := split_ws_aux EmptyString s.

(** [sep.join(l)] *)
Definition join (sep : string) (l : list string) : string := String.concat sep l.

(** [s.startswith(p)] and [p in s] *)
Definition startswith (p s : string) : bool := String.prefix p s.

Fixpoint contains (p s : string) : bool :=
  String.prefix p s ||
  match s with
  | EmptyString => false
  | String _ r => contains p r
  end.

(** [s[-n:]] for [n > 0] *)
Definition last_n (n : nat) (s : string) : string :=
  String.substring (String.length s - n) n s.

Definition nonempty (s : string) : bool :=
  match s with EmptyString => false | _ => true end.

End PyStr.

(** ** The regular expressions of [parse_filename] *)

Module Re.
Import PyStr.

(** [$] matches at the end of the text or just before a final newline. *)
Definition at_dollar (s : string) : bool :=
  match s with
  | EmptyString => true
  | String c EmptyString => Ascii.eqb c "010"%char
  | _ => false
  end.

(** A greedy run of [\d] at the head of [s], and what follows it. *)
Fixpoint take_digits (s : string) : string :=
  match s with
  | String c r => if is_digit c then String c (take_digits r) else EmptyString
  | EmptyString => EmptyString
  end.
Fixpoint drop_digits (s : string) : string :=
  match s with
  | String c r => if is_digit c then drop_digits r else s
  | EmptyString => EmptyString
  end.

(** [re.match(r'^\d{6,}$', s)] *)
Definition match_date (s : string) : bool :=
  (6 <=? String.length (take_digits s)) && at_dollar (drop_digits s).

(** [re.match(r'^\d+$', s)] *)
Definition match_digits (s : string) : bool :=
  (1 <=? String.length (take_digits s)) && at_dollar (drop_digits s).

Definition is_lower_or_digit (c : ascii) : bool := is_lower c || is_digit c.

Fixpoint take_while (p : ascii -> bool) (n : nat) (s : string) : string :=
  match n, s with
  | S n', String c r => if p c then String c (take_while p n' r) else EmptyString
  | _, _ => EmptyString
  end.
Fixpoint drop_while (p : ascii -> bool) (n : nat) (s : string) : string :=
  match n, s with
  | S n', String c r => if p c then drop_while p n' r else s
  | _, _ => s
  end.

(** [re.match(r'^[a-z][a-z0-9]{2,9}$', s)]: the bounded repeat is greedy
    and takes at most nine characters; giving characters back cannot reach
    [$], which only a newline or the end satisfies. *)
Definition match_codename (s : string) : bool :=
  match s with
  | String c r =>
      is_lower c
      && (2 <=? String.length (take_while is_lower_or_digit 9 r))
      && at_dollar (drop_while is_lower_or_digit 9 r)
  | EmptyString => false
  end.

(** The rest of a dotted version once inside a digit run (further digits,
    then any number of groups made of a dot and one or more digits): digits
    are taken greedily, a dot is taken only when a digit follows it. *)
Fixpoint digits_dot_groups (s : string) : string :=
  match s with
  | EmptyString => EmptyString
  | String c r =>
      if is_digit c then String c (digits_dot_groups r)
      else if Ascii.eqb c "."%char
           then match r with
                | String d _ =>
                    if is_digit d then String c (digits_dot_groups r)
                    else EmptyString
                | EmptyString => EmptyString
                end
           else EmptyString
  end.

(** The dotted version [\d+\.\d+] followed by any number of [\.\d+],
    anchored at the head of [s]: the matched text. *)
Definition match_dotted (s : string) : option string :=
  match take_digits s, drop_digits s with
  | EmptyString, _ => None
  | d1, String dot (String d r as r2) =>
      if Ascii.eqb dot "."%char && is_digit d
      then Some (d1 ++ String dot (digits_dot_groups r2))
      else None
  | _, _ => None
  end.

(** An optional [v] and then the dotted version as group 1, anchored at the
    head of [s]: group 1. *)
Definition match_version_at (s : string) : option string :=
  match s with
  | String c r =>
      if Ascii.eqb c "v"%char
      then match match_dotted r with
           | Some g => Some g
           | None => match_dotted s
           end
      else match_dotted s
  | EmptyString => None
  end.

(** [re.search] of the version pattern of [parse_filename] in [s]: group 1
    of the leftmost match. *)
Fixpoint search_version (s : string) : option string :=
  match match_version_at s with
  | Some g => Some g
  | None =>
      match s with
      | EmptyString => None
      | String _ r => search_version r
      end
  end.

End Re.

(** ** Exceptions and [datetime] *)

Module Py.

Inductive exn : Type :=
| ValueError
| IndexError
| TimeoutError
| AlreadyInConversationError
| MessageNotModifiedError
| OtherError
| CancelledError.

(** [except Exception] catches every class above but
    [asyncio.CancelledError], which derives from [BaseException]. *)
Definition is_Exception (e : exn) : bool :=
  match e with
  | CancelledError => false
  | _ => true
  end.

Definition exn_eqb (a b : exn) : bool :=
  match a, b with
  | ValueError, ValueError | IndexError, IndexError
  | TimeoutError, TimeoutError
  | AlreadyInConversationError, AlreadyInConversationError
  | MessageNotModifiedError, MessageNotModifiedError
  | OtherError, OtherError | CancelledError, CancelledError => true
  | _, _ => false
  end.

Inductive result (A : Type) : Type :=
| Ok (a : A)
| Raise (e : exn).
Arguments Ok {A} a.
Arguments Raise {A} e.

Definition bind {A B} (r : result A) (k : A -> result B) : result B :=
  match r with
  | Ok a => k a
  | Raise e => Raise e
  end.

End Py.

Module Datetime.
Import PyStr Py.
Local Open Scope N_scope.

Record date : Type := MkDate { year : N; month : N; day : N }.

Definition digit_val (c : ascii) : N := N_of_ascii c - 48.

(** [int(s)] for a string of digits *)
Definition int_of (s : string) : N :=
  fold_left (fun acc c => 10 * acc + digit_val c) (list_ascii_of_string s) 0.

Definition in_range (lo hi : N) (c : ascii) : bool :=
  (lo <=? digit_val c) && (digit_val c <=? hi) && is_digit c.

(** The alternatives of a directive, in the order the pattern of
    [_strptime] lists them, each with the value read and the text left. *)

(** [%m]: 1[0-2], then 0[1-9], then [1-9] *)
Definition m_alts (s : string) : list (N * string) :=
  match s with
  | String a (String b r) =>
      (if Ascii.eqb a "1"%char && in_range 0 2 b then [(10 + digit_val b, r)] else [])
      ++ (if Ascii.eqb a "0"%char && in_range 1 9 b then [(digit_val b, r)] else [])
      ++ (if in_range 1 9 a then [(digit_val a, String b r)] else [])
  | String a EmptyString =>
      if in_range 1 9 a then [(digit_val a, EmptyString)] else []
  | EmptyString => []
  end.

(** [%d]: 3[0-1], then [1-2]\d, then 0[1-9], then [1-9], then a space and
    [1-9] *)
Definition d_alts (s : string) : list (N * string) :=
  match s with
  | String a (String b r) =>
      (if Ascii.eqb a "3"%char && in_range 0 1 b then [(30 + digit_val b, r)] else [])
      ++ (if in_range 1 2 a && is_digit b then [(10 * digit_val a + digit_val b, r)] else [])
      ++ (if Ascii.eqb a "0"%char && in_range 1 9 b then [(digit_val b, r)] else [])
      ++ (if in_range 1 9 a then [(digit_val a, String b r)] else [])
      ++ (if Ascii.eqb a " "%char && in_range 1 9 b then [(digit_val b, r)] else [])
  | String a EmptyString =>
      if in_range 1 9 a then [(digit_val a, EmptyString)] else []
  | EmptyString => []
  end.

(** The backtracking match of [%m%d]: the first month alternative after
    which some day alternative matches, with the first such day. *)
Fixpoint first_md (ms : list (N * string)) : option (N * N * string) :=
  match ms with
  | [] => None
  | (m, r) :: ms' =>
      match d_alts r with
      | (d, r') :: _ => Some (m, d, r')
      | [] => first_md ms'
      end
  end.

Definition match_md (s : string) : option (N * N * string) :=
  first_md (m_alts s).

(** [n] leading digits: the text of [\d] repeated [n] times, and the rest *)
Fixpoint take_n_digits (n : nat) (s : string) : option (string * string) :=
  match n with
  | O => Some (EmptyString, s)
  | S n' =>
      match s with
      | String c r =>
          if is_digit c
          then match take_n_digits n' r with
               | Some (ds, r') => Some (String c ds, r')
               | None => None
               end
          else None
      | EmptyString => None
      end
  end.

Definition is_leap (y : N) : bool :=
  (y mod 4 =? 0) && (negb (y mod 100 =? 0) || (y mod 400 =? 0)).

Definition days_in_month (y m : N) : N :=
  match m with
  | 2 => if is_leap y then 29 else 28
  | 4 | 6 | 9 | 11 => 30
  | _ => 31
  end.

(** The checks of the [date] constructor *)
Definition valid_date (y m d : N) : bool :=
  (1 <=? y) && (y <=? 9999) && (1 <=? m) && (m <=? 12)
  && (1 <=? d) && (d <=? days_in_month y m).

Definition make_date (y m d : N) : result date :=
  if valid_date y m d then Ok (MkDate y m d) else Raise ValueError.

Inductive year_directive : Type := Y4 | Y2.

(** [%y]: values up to 68 are 20xx, the others 19xx *)
Definition year_of (f : year_directive) (ys : string) : N :=
  match f with
  | Y4 => int_of ys
  | Y2 => if int_of ys <=? 68 then 2000 + int_of ys else 1900 + int_of ys
  end.

(** [datetime.strptime(s, '%Y%m%d')] and [datetime.strptime(s, '%y%m%d')]:
    no match or text left over raise [ValueError], and so does a date that
    does not exist. *)
Definition strptime (f : year_directive) (s : string) : result date :=
  match take_n_digits (match f with Y4 => 4%nat | Y2 => 2%nat end) s with
  | None => Raise ValueError
  | Some (ys, r) =>
      match match_md r with
      | Some (m, d, EmptyString) => make_date (year_of f ys) m d
      | _ => Raise ValueError
      end
  end.

Definition digit_char (n : N) : ascii := ascii_of_N (48 + n).

Definition pad2 (n : N) : string :=
  String (digit_char (n / 10)) (String (digit_char (n mod 10)) EmptyString).

(** [d.strftime('%d/%m/%y')] *)
Definition strftime_dmy (d : date) : string :=
  pad2 (day d) ++ "/" ++ pad2 (month d) ++ "/" ++ pad2 (year d mod 100).

End Datetime.

(** ** [parse_filename] of src/bot.py *)

Module Extractor.
Import PyStr Re Py Datetime.

(** The [result] dictionary: six keys, each [None] or a string. *)
Record FilenameRecord : Type := MkRecord {
  version : option string;
  build_date : option string;
  status : option string;
  variant_type : option string;
  device_name : option string;
  rom_name : option string
}.

Definition status_priority : list string :=
  ["official"; "unofficial"; "community"; "stable"; "beta"; "alpha"; "rc";
   "nightly"; "experimental"; "test"; "enchanted"].

Definition variant_keywords : list string :=
  ["gapps"; "gms"; "vanilla"; "core"; "lite"; "full"; "mini"].

(** [re.sub(r'[*_]', '', filename).lower()] *)
Definition is_star_or_underscore (c : ascii) : bool :=
  Ascii.eqb c "*"%char || Ascii.eqb c "_"%char.
Definition clean (filename : string) : string :=
  lower (sfilter (fun c => negb (is_star_or_underscore c)) filename).

(** [' '.join(word.capitalize() for word in rom_name.split())] *)
Definition title_words (s : string) : string :=
  join " " (map capitalize (split_ws s)).

(** The variables the scanning loop updates: the four keys of [result] it
    writes, [found_status_priority] ([None] is [float('inf')]) and
    [device_candidates]. *)
Record scan : Type := MkScan {
  s_version : option string;
  s_build_date : option string;
  s_status : option string;
  s_variant : option string;
  found_status_priority : option nat;
  device_candidates : list string
}.

(** [part.split('.')[0].strip()] *)
Definition clean_part (part : string) : string :=
  strip (hd EmptyString (split_on "."%char part)).

(** [i < found_status_priority] *)
Definition higher_priority (i : nat) (found : option nat) : bool :=
  match found with
  | None => true
  | Some j => i <? j
  end.

(** The status loop over [enumerate(status_priority)], from index [i]: its
    [continue] ends an iteration that has nothing left to do, so every
    keyword is examined. *)
Fixpoint status_loop (kws : list string) (i : nat) (cp : string)
    (found : option nat) (st : option string) : option nat * option string :=
  match kws with
  | [] => (found, st)
  | k :: ks =>
      if contains k cp
      then if higher_priority i found
           then status_loop ks (S i) cp (Some i) (Some k)
           else status_loop ks (S i) cp found st
      else status_loop ks (S i) cp found st
  end.

(** The variant loop: its [break] is under the test that no variant is set
    yet. *)
Fixpoint variant_loop (kws : list string) (cp : string) (vt : option string)
    : option string :=
  match kws with
  | [] => vt
  | k :: ks =>
      if contains k cp
      then match vt with
           | None => Some k
           | Some _ => variant_loop ks cp vt
           end
      else variant_loop ks cp vt
  end.

(** The test that appends [clean_part] to [device_candidates] *)
Definition is_device_candidate (cp : string) : bool :=
  (3 <=? String.length cp) && (String.length cp <=? 10)
  && negb (isdigit cp)
  && negb (existsb (fun k => contains k cp) status_priority)
  && negb (existsb (fun k => contains k cp) variant_keywords)
  && match_codename cp.

(** The version test of the loop, without its guard on [result["version"]] *)
Definition version_like (cp : string) : bool :=
  (startswith "v" cp && any_digit cp) || match_digits cp.

(** One iteration of [for part in parts[1:]] *)
Definition scan_part (st : scan) (part : string) : scan :=
  let cp := clean_part part in
  if negb (nonempty cp) then st
  else if match_date cp then
    match s_build_date st with
    | None => MkScan (s_version st) (Some cp) (s_status st) (s_variant st)
                     (found_status_priority st) (device_candidates st)
    | Some _ => st
    end
  else if (match s_version st with None => true | Some _ => false end)
          && version_like cp then
    MkScan (Some (lstrip_char "v"%char cp)) (s_build_date st) (s_status st)
           (s_variant st) (found_status_priority st) (device_candidates st)
  else
    let '(found, stat) :=
      status_loop status_priority 0 cp (found_status_priority st) (s_status st) in
    let vt := variant_loop variant_keywords cp (s_variant st) in
    let cands :=
      if is_device_candidate cp
      then (device_candidates st ++ [cp])%list
      else device_candidates st in
    MkScan (s_version st) (s_build_date st) stat vt found cands.

Definition scan_parts (st : scan) (parts : list string) : scan :=
  fold_left scan_part parts st.

(** The [try] block that formats the date: what it leaves in
    [result["build_date"]], or the exception that escapes it. *)
Definition parse_date (bd : string) : result date :=
  if String.length bd =? 8 then strptime Y4 bd
  else if String.length bd =? 6 then strptime Y2 bd
  else strptime Y4 (if 8 <? String.length bd then last_n 8 bd else bd).

Definition format_build_date (bd : string) : result string :=
  match parse_date bd with
  | Ok d => Ok (strftime_dmy d)
  | Raise ValueError => Ok bd
  | Raise e => Raise e
  end.

(** [if result["build_date"]: ...] *)
Definition process_build_date (bd : option string) : result (option string) :=
  match bd with
  | Some s =>
      if nonempty s
      then match format_build_date s with
           | Ok s' => Ok (Some s')
           | Raise e => Raise e
           end
      else Ok bd
  | None => Ok None
  end.

(** The first of [parts] that holds a digit *)
Definition alternative_version (parts : list string) : option string :=
  find any_digit parts.

Definition truthy (o : option string) : bool :=
  match o with
  | Some s => nonempty s
  | None => false
  end.

(** The device-name selection at the end of [parse_filename] *)
Definition select_device (cands : list string) : option string :=
  match cands with
  | [] => None
  | _ =>
      let first := find match_codename cands in
      if negb (truthy first) then Some (List.last cands EmptyString) else first
  end.

Definition or_default (o : option string) (d : string) : string :=
  match o with
  | Some s => s
  | None => d
  end.

Definition initial_scan (c : string) : scan :=
  MkScan (search_version c) None None None None [].

(** [parse_filename(filename)]; [today] is
    [datetime.now().strftime('%d/%m/%y')].  [Ok None] is the [None] the
    function returns, [Raise] an exception leaving it. *)
Definition parse_filename (today : string) (filename : string)
    : result (option FilenameRecord) :=
  let c := clean filename in
  let parts := split_on "-"%char c in
  if length parts <? 2 then Ok None
  else
    let p0 := strip (hd EmptyString parts) in
    let rom := if nonempty p0 then Some (title_words p0) else None in
    let st := scan_parts (initial_scan c) (tl parts) in
    bind (process_build_date (s_build_date st)) (fun bd =>
    let ver :=
      match s_version st with
      | Some v => v
      | None => or_default (alternative_version parts) "Unknown"
      end in
    Ok (Some
      (MkRecord (Some ver)
                (Some (or_default bd today))
                (Some (capitalize (or_default (s_status st) "unofficial")))
                (Some (upper (or_default (s_variant st) "standard")))
                (select_device (device_candidates st))
                rom))).

End Extractor.


(** ** [parse_filename] of src/index.py *)

Module IndexPy.
Import PyStr Re Py Datetime.
Import Extractor (FilenameRecord, MkRecord, scan, MkScan, s_version,
  s_build_date, s_status, s_variant, found_status_priority, device_candidates,
  status_priority, variant_keywords, clean, title_words, clean_part,
  higher_priority, is_device_candidate, version_like, initial_scan).

(** The status loop: here a [break] leaves it at the first keyword found in
    the segment. *)
Fixpoint status_loop (kws : list string) (i : nat) (cp : string)
    (found : option nat) (st : option string) : option nat * option string :=
  match kws with
  | [] => (found, st)
  | k :: ks =>
      if contains k cp
      then if higher_priority i found then (Some i, Some k) else (found, st)
      else status_loop ks (S i) cp found st
  end.

(** The variant loop, with its flag [variant_found] *)
Fixpoint variant_loop (kws : list string) (cp : string) (vt : option string)
    : option string * bool :=
  match kws with
  | [] => (vt, false)
  | k :: ks =>
      if contains k cp
      then match vt with
           | None => (Some k, true)
           | Some _ => variant_loop ks cp vt
           end
      else variant_loop ks cp vt
  end.

(** One iteration of [for part in parts[1:]] *)
Definition scan_part (st : scan) (part : string) : scan :=
  let cp := clean_part part in
  if negb (nonempty cp) then st
  else if match_date cp then
    match s_build_date st with
    | None => MkScan (s_version st) (Some cp) (s_status st) (s_variant st)
                     (found_status_priority st) (device_candidates st)
    | Some _ => st
    end
  else if (match s_version st with None => true | Some _ => false end)
          && version_like cp then
    MkScan (Some (lstrip_char "v"%char cp)) (s_build_date st) (s_status st)
           (s_variant st) (found_status_priority st) (device_candidates st)
  else
    let '(found, stat) :=
      status_loop status_priority 0 cp (found_status_priority st) (s_status st) in
    let '(vt, variant_found) := variant_loop variant_keywords cp (s_variant st) in
    if variant_found
    then MkScan (s_version st) (s_build_date st) stat vt found
                (device_candidates st)
    else
      let cands :=
        if is_device_candidate cp
        then (device_candidates st ++ [cp])%list
        else device_candidates st in
      MkScan (s_version st) (s_build_date st) stat vt found cands.

Definition scan_parts (st : scan) (parts : list string) : scan :=
  fold_left scan_part parts st.

(** [parse_filename(filename)] of src/index.py: after the loop the three
    steps that follow it in src/bot.py are comments only, and [result] is
    returned as the loop left it. *)
Definition parse_filename (filename : string) : result (option FilenameRecord) :=
  let c := clean filename in
  let parts := split_on "-"%char c in
  if length parts <? 2 then Ok None
  else
    let p0 := strip (hd EmptyString parts) in
    let rom := if nonempty p0 then Some (title_words p0) else None in
    let st := scan_parts (initial_scan c) (tl parts) in
    Ok (Some (MkRecord (s_version st) (s_build_date st) (s_status st)
                       (s_variant st) None rom)).

End IndexPy.

(** ** The bot: shared state, transport and database *)

Module Bot.
Import PyStr Py.

(** The two event builders [get_response_or_callback] registers under *)
Inductive builder : Type := NewMessage | CallbackQuery.

Definition builder_eqb (a b : builder) : bool :=
  match a, b with
  | NewMessage, NewMessage | CallbackQuery, CallbackQuery => true
  | _, _ => false
  end.

(** A press on an inline button: its payload, and what [answer()] and
    [edit()] on the event will raise, if anything. *)
Record press : Type := MkPress {
  data : string;
  answer_fails : option exn;
  edit_fails : option exn
}.

(** What the user does next: sends a text, presses a button, or the wait
    ends with an exception ([TimeoutError] when the deadline passes). *)
Inductive answer : Type :=
| Text (s : string)
| Button (p : press)
| Fails (e : exn).

(** The awaits of the wizard, by step *)
Inductive label : Type :=
| L_preset | L_link | L_filename | L_version | L_device | L_status
| L_variant | L_custom_variant | L_rom_confirm | L_rom_name
| L_add_variant | L_variant_name | L_variant_link
| L_support | L_screenshots | L_device_cl | L_save_device_cl | L_source_cl
| L_notes | L_credits | L_add_sha | L_sha | L_preview.

Definition is_preview (l : label) : bool :=
  match l with
  | L_preview => true
  | _ => false
  end.

(** The messages of the bot.  [Prompt l] is the question of step [l];
    [Info] carries the fixed part of any other text. *)
Inductive msg : Type :=
| Banned                 (* You are banned from using this bot. *)
| NotAllowedHere         (* This command can only be used in allowed chats
                            or in PM (if enabled). *)
| LimitReached           (* You have reached your daily post limit ... *)
| Remaining (n : Z)      (* You have n post(s) remaining today. *)
| AlreadyActive          (* You already have an active post creation
                            session. Please finish or cancel it first using
                            /cancel. *)
| CommandTimedOut        (* Command timed out. Please try again. *)
| AlreadyInConversation  (* You already have an active session. Please
                            finish it first or use /cancel. *)
| ErrorOccurred (e : exn) (* An error occurred: e *)
| SelectionTimedOut      (* Selection timed out. Using current options. *)
| Prompt (l : label)
| Choice (d : string)    (* a prompt edited to show the choice made *)
| Preview (format : string) (banner : option nat) (plain : bool)
| FinalPost (text : string) (banner : option string)
| Info (s : string).

Inductive event : Type :=
| Sent (m : msg)                       (* conv.send_message, conv.send_file *)
| Replied (m : msg)                    (* event.reply *)
| Edited (m : msg)                     (* edit of a message of the bot *)
| Awaited (l : label) (a : answer)     (* what an await of the wizard got *)
| Posted (text : string) (banner : option string)  (* index.post_to_channel *)
| Indexed (device rom link : string).  (* index.add_to_index *)

(** One build variant of the draft *)
Record variant : Type := MkVariant {
  v_name : string;
  v_link : string;
  v_sha256 : option string
}.

(** [post_data] *)
Record post_data : Type := MkPost {
  variants : list variant;
  support_group : option string;
  screenshots : option string;
  device_changelog : option string;
  source_changelog : option string;
  notes : option string;
  credits : option string;
  maintainer_name : string;
  p_rom_name : option string;
  p_version : option string;
  p_build_date : option string;
  p_status : option string;
  p_variant_type : option string;
  p_device_name : option string
}.

(** The tables of settings.db the handler uses *)
Record stats_row : Type := MkStats {
  username : option string;
  first_name : option string;
  last_name : option string;
  total_posts : Z;
  last_post_date : option string;
  first_seen : string
}.

Record saved_row : Type := MkSaved {
  saved_support : option string;
  saved_notes : option string;
  saved_credits : option string;
  saved_device_cl : option string
}.

Record database : Type := MkDb {
  banned_users : gset Z;
  owner_id : option Z;
  pm_enabled : bool;
  allowed_chats : gset Z;
  post_limits : gmap (Z * string) Z;
  user_stats : gmap Z stats_row;
  user_data : gmap Z saved_row;
  rom_presets : gmap string (string * option string)
}.

(** Everything the handlers share: the module-level dictionary
    [active_conversations], the conversations and the event handlers the
    client holds, the database, the [post_data] of the running sessions (by
    session key), what users will do, and what has happened so far (newest
    first). *)
Record world : Type := MkWorld {
  active_conversations : gmap (Z * Z) Z;
  conversations : gset Z;
  event_builders : list (builder * nat);
  next_handler : nat;
  db : database;
  drafts : gmap (Z * Z) post_data;
  script : list answer;
  log : list event
}.

Definition set_active (f : gmap (Z * Z) Z -> gmap (Z * Z) Z) (w : world) : world :=
  MkWorld (f (active_conversations w)) (conversations w) (event_builders w)
          (next_handler w) (db w) (drafts w) (script w) (log w).
Definition set_conversations (f : gset Z -> gset Z) (w : world) : world :=
  MkWorld (active_conversations w) (f (conversations w)) (event_builders w)
          (next_handler w) (db w) (drafts w) (script w) (log w).
Definition set_builders (f : list (builder * nat) -> list (builder * nat))
    (w : world) : world :=
  MkWorld (active_conversations w) (conversations w) (f (event_builders w))
          (next_handler w) (db w) (drafts w) (script w) (log w).
Definition set_next_handler (n : nat) (w : world) : world :=
  MkWorld (active_conversations w) (conversations w) (event_builders w)
          n (db w) (drafts w) (script w) (log w).
Definition set_db (f : database -> database) (w : world) : world :=
  MkWorld (active_conversations w) (conversations w) (event_builders w)
          (next_handler w) (f (db w)) (drafts w) (script w) (log w).
Definition set_drafts (f : gmap (Z * Z) post_data -> gmap (Z * Z) post_data)
    (w : world) : world :=
  MkWorld (active_conversations w) (conversations w) (event_builders w)
          (next_handler w) (db w) (f (drafts w)) (script w) (log w).
Definition set_script (s : list answer) (w : world) : world :=
  MkWorld (active_conversations w) (conversations w) (event_builders w)
          (next_handler w) (db w) (drafts w) s (log w).
Definition add_log (e : event) (w : world) : world :=
  MkWorld (active_conversations w) (conversations w) (event_builders w)
          (next_handler w) (db w) (drafts w) (script w) (e :: log w).

(** *** Control: normal completion, exception, or [return] *)

(** [Diverged] is no outcome of the program: it marks a [while True] loop
    of this embedding that has used up its bound on iterations, which
    [handler_never_diverges] shows not to happen. *)
Inductive outcome (A : Type) : Type :=
| Normal (a : A)
| Exc (e : exn)
| Returned
| Diverged.
Arguments Normal {A} a.
Arguments Exc {A} e.
Arguments Returned {A}.
Arguments Diverged {A}.

Definition M (A : Type) : Type := world -> outcome A * world.

Definition ret {A} (a : A) : M A := fun w => (Normal a, w).
Definition raise {A} (e : exn) : M A := fun w => (Exc e, w).
Definition return_ {A} : M A := fun w => (Returned, w).

Definition bind {A B} (m : M A) (k : A -> M B) : M B :=
  fun w =>
    match m w with
    | (Normal a, w') => k a w'
    | (Exc e, w') => (Exc e, w')
    | (Returned, w') => (Returned, w')
    | (Diverged, w') => (Diverged, w')
    end.

Declare Scope wizard_scope.
Delimit Scope wizard_scope with wizard.
Notation "x <- m ;; k" := (bind m (fun x => k))
  (at level 100, m at next level, right associativity) : wizard_scope.
Notation "m ;; k" := (bind m (fun _ => k))
  (at level 100, right associativity) : wizard_scope.
Local Open Scope wizard_scope.

Definition modify (f : world -> world) : M unit := fun w => (Normal tt, f w).
Definition gets {A} (f : world -> A) : M A := fun w => (Normal (f w), w).

(** [try: m except ...: h]; [h e] is [None] when no clause catches [e]. *)
Definition try_except {A} (m : M A) (h : exn -> option (M A)) : M A :=
  fun w =>
    match m w with
    | (Exc e, w') =>
        match h e with
        | Some k => k w'
        | None => (Exc e, w')
        end
    | r => r
    end.

(** [try: m finally: fin]: [fin] runs on every way out of [m]; an
    exception or a [return] of [fin] replaces the outcome of [m]. *)
Definition try_finally {A} (m : M A) (fin : M unit) : M A :=
  fun w =>
    match m w with
    | (r, w') =>
        match fin w' with
        | (Normal _, w'') => (r, w'')
        | (Exc e, w'') => (Exc e, w'')
        | (Returned, w'') => (Returned, w'')
        | (Diverged, w'') => (Diverged, w'')
        end
    end.

(** A Python exception of a pure computation *)
Definition lift {A} (r : result A) : M A :=
  match r with
  | Ok a => ret a
  | Raise e => raise e
  end.

(** *** What the user does *)

(** The next text message: button presses meanwhile are not for this
    wait.  An exhausted script is a user who stays silent. *)
Fixpoint next_text (s : list answer) : (string + exn) * list answer :=
  match s with
  | [] => (inr TimeoutError, [])
  | Text t :: r => (inl t, r)
  | Fails e :: r => (inr e, r)
  | Button _ :: r => next_text r
  end.

(** The next press on the buttons of the prompt *)
Fixpoint next_press (s : list answer) : (press + exn) * list answer :=
  match s with
  | [] => (inr TimeoutError, [])
  | Button p :: r => (inl p, r)
  | Fails e :: r => (inr e, r)
  | Text _ :: r => next_press r
  end.

(** The next text or press, whichever comes first *)
Definition next_any (s : list answer) : answer * list answer :=
  match s with
  | [] => (Fails TimeoutError, [])
  | a :: r => (a, r)
  end.

(** [await conv.get_response()] at step [l] *)
Definition get_response (l : label) : M string :=
  fun w =>
    match next_text (script w) with
    | (inl t, r) => (Normal t, add_log (Awaited l (Text t)) (set_script r w))
    | (inr e, r) => (Exc e, add_log (Awaited l (Fails e)) (set_script r w))
    end.

(** [await conv.wait_event(events.CallbackQuery(...))] at step [l] *)
Definition wait_event (l : label) : M press :=
  fun w =>
    match next_press (script w) with
    | (inl p, r) => (Normal p, add_log (Awaited l (Button p)) (set_script r w))
    | (inr e, r) => (Exc e, add_log (Awaited l (Fails e)) (set_script r w))
    end.

(** [await evt.answer()] *)
Definition answer_press (p : press) : M unit :=
  match answer_fails p with
  | Some e => raise e
  | None => ret tt
  end.

(** [await evt.edit(text)] *)
Definition edit_press (p : press) (m : msg) : M unit :=
  match edit_fails p with
  | Some e => raise e
  | None => modify (add_log (Edited m))
  end.

(** [try: await evt.edit(text)] with [MessageNotModifiedError] passed over
    and any other [Exception] logged *)
Definition try_edit_press (p : press) (m : msg) : M unit :=
  try_except (edit_press p m)
    (fun e => if is_Exception e then Some (ret tt) else None).

(** [await asyncio.wait_for(done_event.wait(), timeout)] followed by
    [queue.get()]: the text or the press the temporary handler has queued *)
Definition wait_done (l : label) : M (string + press) :=
  fun w =>
    match next_any (script w) with
    | (Text t, r) => (Normal (inl t), add_log (Awaited l (Text t)) (set_script r w))
    | (Button p, r) => (Normal (inr p), add_log (Awaited l (Button p)) (set_script r w))
    | (Fails e, r) => (Exc e, add_log (Awaited l (Fails e)) (set_script r w))
    end.

(** [client.add_event_handler(callback, event)] appends a pair to the list
    of the client; [client.remove_event_handler(callback, event)] removes
    every pair of that callback whose builder is of the given class. *)
Definition add_event_handler (h : nat) (b : builder) : M unit :=
  modify (set_builders (fun l => (l ++ [(b, h)])%list)).

Definition is_registration (h : nat) (b : builder) (e : builder * nat) : bool :=
  builder_eqb (fst e) b && Nat.eqb (snd e) h.

Definition remove_event_handler (h : nat) (b : builder) : M unit :=
  modify (set_builders (List.filter (fun e => negb (is_registration h b e)))).

(** What [get_response_or_callback] returns: a [Message] or a
    [CallbackQuery] event *)
Inductive response : Type :=
| Message (text : string)
| Callback (p : press).

(** [get_response_or_callback(message_with_buttons, timeout)].  The closure
    [handler] is a new callback at every call: [next_handler] names it.  The
    branch that returns [None] needs a falsy object in the queue, which the
    handler never puts there. *)
Definition get_response_or_callback (l : label) : M response :=
  h <- gets next_handler ;;
  modify (set_next_handler (S h)) ;;
  add_event_handler h NewMessage ;;
  add_event_handler h CallbackQuery ;;
  try_finally
    (try_except
       (result <- wait_done l ;;
        match result with
        | inr p =>
            answer_press p ;;
            try_edit_press p (Choice (data p)) ;;
            ret (Callback p)
        | inl t => ret (Message t)
        end)
       (fun e =>
          if exn_eqb e TimeoutError then Some (raise e)
          else if is_Exception e then Some (raise e)
          else None))
    (remove_event_handler h NewMessage ;;
     remove_event_handler h CallbackQuery).

(** *** The database functions *)

Definition truthy (o : option string) : bool :=
  match o with
  | Some s => nonempty s
  | None => false
  end.

Definition is_banned (user : Z) (d : database) : bool :=
  bool_decide (user ∈ banned_users d).

Definition is_owner (user : Z) (d : database) : bool :=
  match owner_id d with
  | Some o => Z.eqb user o
  | None => false
  end.

Definition is_allowed_chat (chat : Z) (d : database) : bool :=
  bool_decide (chat ∈ allowed_chats d).

(** [check_post_limit(user_id)]; [today] is the date of the day *)
Definition check_post_limit (today : string) (user : Z) (d : database)
    : bool * Z :=
  let current_count := default 0%Z (post_limits d !! (user, today)) in
  let remaining := (2 - current_count)%Z in
  (Z.ltb 0 remaining, remaining).

Definition set_user_stats (f : gmap Z stats_row -> gmap Z stats_row)
    (d : database) : database :=
  MkDb (banned_users d) (owner_id d) (pm_enabled d) (allowed_chats d)
       (post_limits d) (f (user_stats d)) (user_data d) (rom_presets d).
Definition set_post_limits
    (f : gmap (Z * string) Z -> gmap (Z * string) Z) (d : database) : database :=
  MkDb (banned_users d) (owner_id d) (pm_enabled d) (allowed_chats d)
       (f (post_limits d)) (user_stats d) (user_data d) (rom_presets d).
Definition set_user_data (f : gmap Z saved_row -> gmap Z saved_row)
    (d : database) : database :=
  MkDb (banned_users d) (owner_id d) (pm_enabled d) (allowed_chats d)
       (post_limits d) (user_stats d) (f (user_data d)) (rom_presets d).

Definition or_else (a b : option string) : option string :=
  if truthy a then a else b.

(** [update_user_stats(user_id, username, first_name, last_name,
    post_increment, last_post_date)]; [now] is the time of the call *)
Definition update_user_stats (now : string) (user : Z)
    (uname fname lname : option string) (post_increment : Z)
    (last_post : option string) (d : database) : database :=
  match user_stats d !! user with
  | Some row =>
      let row1 :=
        if Z.ltb 0 post_increment
        then if truthy last_post
             then MkStats (username row) (first_name row) (last_name row)
                          (total_posts row + post_increment) last_post
                          (first_seen row)
             else MkStats (username row) (first_name row) (last_name row)
                          (total_posts row + post_increment)
                          (last_post_date row) (first_seen row)
        else row in
      let row2 :=
        if truthy uname || truthy fname || truthy lname
        then MkStats (or_else uname (username row1))
                     (or_else fname (first_name row1))
                     (or_else lname (last_name row1))
                     (total_posts row1) (last_post_date row1) (first_seen row1)
        else row1 in
      set_user_stats (insert user row2) d
  | None =>
      set_user_stats
        (insert user
           (MkStats uname fname lname
                    (if Z.ltb 0 post_increment then post_increment else 0%Z)
                    last_post now))
        d
  end.

(** [increment_post_count(user_id, username, first_name, last_name)] *)
Definition increment_post_count (today now : string) (user : Z)
    (uname fname lname : option string) (d : database) : database :=
  let d1 :=
    match post_limits d !! (user, today) with
    | Some c => set_post_limits (insert (user, today) (c + 1)%Z) d
    | None => set_post_limits (insert (user, today) 1%Z) d
    end in
  update_user_stats now user uname fname lname 1 (Some now) d1.

(** [get_user_data(user_id)] and [save_user_data(user_id, ...)] *)
Definition get_user_data (user : Z) (d : database) : option saved_row :=
  user_data d !! user.

Definition save_user_data (user : Z)
    (support notes_ credits_ device_cl : option string) (d : database)
    : database :=
  let row := default (MkSaved None None None None) (user_data d !! user) in
  let pick (new old : option string) :=
    match new with Some _ => new | None => old end in
  set_user_data
    (insert user
       (MkSaved (pick support (saved_support row))
                (pick notes_ (saved_notes row))
                (pick credits_ (saved_credits row))
                (pick device_cl (saved_device_cl row))))
    d.

(** [list_presets()] (the order of the names is not kept) and
    [get_preset(preset_name)] *)
Definition list_presets (d : database) : list string :=
  map fst (map_to_list (rom_presets d)).

Definition get_preset (name : string) (d : database)
    : option (string * option string) :=
  rom_presets d !! lower name.

(** *** The /new command *)

(** The incoming message and its sender *)
Record new_message : Type := MkMessage {
  chat_id : Z;
  sender_id : Z;
  is_private : bool;
  sender_username : option string;
  sender_first_name : option string;
  sender_last_name : option string;
  display_name : string
}.

Definition conv_key (ev : new_message) : Z * Z := (chat_id ev, sender_id ev).

Definition set_variants (f : list variant -> list variant) (p : post_data)
    : post_data :=
  MkPost (f (variants p)) (support_group p) (screenshots p)
         (device_changelog p) (source_changelog p) (notes p) (credits p)
         (maintainer_name p) (p_rom_name p) (p_version p) (p_build_date p)
         (p_status p) (p_variant_type p) (p_device_name p).
Definition set_support_group (v : option string) (p : post_data) : post_data :=
  MkPost (variants p) v (screenshots p)
         (device_changelog p) (source_changelog p) (notes p) (credits p)
         (maintainer_name p) (p_rom_name p) (p_version p) (p_build_date p)
         (p_status p) (p_variant_type p) (p_device_name p).
Definition set_screenshots (v : option string) (p : post_data) : post_data :=
  MkPost (variants p) (support_group p) v
         (device_changelog p) (source_changelog p) (notes p) (credits p)
         (maintainer_name p) (p_rom_name p) (p_version p) (p_build_date p)
         (p_status p) (p_variant_type p) (p_device_name p).
Definition set_device_changelog (v : option string) (p : post_data) : post_data :=
  MkPost (variants p) (support_group p) (screenshots p)
         v (source_changelog p) (notes p) (credits p)
         (maintainer_name p) (p_rom_name p) (p_version p) (p_build_date p)
         (p_status p) (p_variant_type p) (p_device_name p).
Definition set_source_changelog (v : option string) (p : post_data) : post_data :=
  MkPost (variants p) (support_group p) (screenshots p)
         (device_changelog p) v (notes p) (credits p)
         (maintainer_name p) (p_rom_name p) (p_version p) (p_build_date p)
         (p_status p) (p_variant_type p) (p_device_name p).
Definition set_notes (v : option string) (p : post_data) : post_data :=
  MkPost (variants p) (support_group p) (screenshots p)
         (device_changelog p) (source_changelog p) v (credits p)
         (maintainer_name p) (p_rom_name p) (p_version p) (p_build_date p)
         (p_status p) (p_variant_type p) (p_device_name p).
Definition set_credits (v : option string) (p : post_data) : post_data :=
  MkPost (variants p) (support_group p) (screenshots p)
         (device_changelog p) (source_changelog p) (notes p) v
         (maintainer_name p) (p_rom_name p) (p_version p) (p_build_date p)
         (p_status p) (p_variant_type p) (p_device_name p).
Definition set_rom_name (v : option string) (p : post_data) : post_data :=
  MkPost (variants p) (support_group p) (screenshots p)
         (device_changelog p) (source_changelog p) (notes p) (credits p)
         (maintainer_name p) v (p_version p) (p_build_date p)
         (p_status p) (p_variant_type p) (p_device_name p).

(** [post_data.update(parsed_info)]: the six keys of [parsed_info] *)
Definition update_parsed (r : Extractor.FilenameRecord) (p : post_data)
    : post_data :=
  MkPost (variants p) (support_group p) (screenshots p)
         (device_changelog p) (source_changelog p) (notes p) (credits p)
         (maintainer_name p) (Extractor.rom_name r) (Extractor.version r)
         (Extractor.build_date r) (Extractor.status r)
         (Extractor.variant_type r) (Extractor.device_name r).

Definition set_sha (i : nat) (v : option string) (p : post_data) : post_data :=
  set_variants
    (fun vs =>
       match vs !! i with
       | Some x => <[i := MkVariant (v_name x) (v_link x) v]> vs
       | None => vs
       end) p.

Definition initial_post (ev : new_message) : post_data :=
  MkPost [] None None None None None None (display_name ev)
         None None None None None None.

(** [s.startswith(('http://', 'https://'))] and [s.endswith(suffix)] *)
Definition is_link (s : string) : bool :=
  startswith "http://" s || startswith "https://" s.

Definition endswith (suffix s : string) : bool :=
  (String.length suffix <=? String.length s)
  && String.eqb (last_n (String.length suffix) s) suffix.

(** [data.split('_')[1]] and [data.split('_', 1)[1]] *)
Definition second_field (d : string) : result string :=
  match split_on "_"%char d with
  | _ :: x :: _ => Ok x
  | _ => Raise IndexError
  end.

Fixpoint after_first (sep : ascii) (s : string) : option string :=
  match s with
  | EmptyString => None
  | String c r => if Ascii.eqb c sep then Some r else after_first sep r
  end.

Definition rest_after_underscore (d : string) : result string :=
  match after_first "_"%char d with
  | Some x => Ok x
  | None => Raise IndexError
  end.

Inductive loop_control : Type := Continue | Break.

Record preview : Type := MkPreview {
  selected_format : string;
  selected_banner : option nat;
  preview_message : option msg
}.

(** The clock, the transport and the collaborators of the handler:
    [today_dmy], [today_iso] and [now_stamp] are the current date and time as
    the handler formats them; [send_fails] and [edit_fails_on] tell which
    messages the transport refuses, and with what exception; [bullet] is the
    bullet mark of [format_bullets] and the space after it. *)
Record environment : Type := MkEnv {
  today_dmy : string;
  today_iso : string;
  now_stamp : string;
  send_fails : msg -> option exn;
  edit_fails_on : msg -> option exn;
  get_filename_from_url : string -> option string;
  create_paste : string -> option string;
  generate_post_text : string -> post_data -> string;
  BANNER_SUPPORT : bool;
  INDEX_SUPPORT : bool;
  generate_banner_file : post_data -> nat -> result (option string);
  path_exists : string -> bool;
  post_to_channel : post_data -> string -> option string -> bool * option string;
  add_to_index : post_data -> option string -> bool;
  bullet : string
}.

Section Handler.

Variable E : environment.

(** [format_bullets(text)] *)
Definition format_bullets (text : string) : string :=
  let lines :=
    List.filter nonempty (map strip (split_on "010"%char text)) in
  join (String "010"%char EmptyString)
    (map (fun line =>
            match line with
            | String c r => (bullet E) ++ String (to_upper c) r
            | EmptyString => (bullet E)
            end) lines).

(** [await conv.send_message(...)], [await conv.send_file(...)] *)
Definition send (m : msg) : M unit :=
  match (send_fails E) m with
  | Some e => raise e
  | None => modify (add_log (Sent m))
  end.

(** [await event.reply(...)] *)
Definition reply (m : msg) : M unit :=
  match (send_fails E) m with
  | Some e => raise e
  | None => modify (add_log (Replied m))
  end.

(** [await message.edit(...)] on a message of the bot *)
Definition edit_message (m : msg) : M unit :=
  match (edit_fails_on E) m with
  | Some e => raise e
  | None => modify (add_log (Edited m))
  end.

Variable ev : new_message.

Definition draft_modify (f : post_data -> post_data) : M unit :=
  modify (set_drafts (alter f (conv_key ev))).

Definition draft_get : M post_data :=
  gets (fun w => default (initial_post ev) (drafts w !! conv_key ev)).

Definition db_modify (f : database -> database) : M unit :=
  modify (set_db f).

(** Preset selection: [preset_chosen] *)
Definition step_preset (available_presets : list string) : M bool :=
  match available_presets with
  | [] => ret false
  | _ =>
      send (Prompt L_preset) ;;
      preset_choice <- wait_event L_preset ;;
      answer_press preset_choice ;;
      if negb (String.eqb (data preset_choice) "preset_manual")
      then
        preset_name <- lift (rest_after_underscore (data preset_choice)) ;;
        use_preset_data <- gets (fun w => get_preset preset_name (db w)) ;;
        match use_preset_data with
        | Some (rom, source_cl) =>
            draft_modify (set_rom_name (Some rom)) ;;
            draft_modify (set_source_changelog source_cl) ;;
            edit_press preset_choice (Info "Using preset") ;;
            ret true
        | None =>
            edit_press preset_choice (Info "Error: Preset not found. Proceeding with manual entry.") ;;
            ret false
        end
      else
        edit_press preset_choice (Info "Proceeding with manual entry.") ;;
        ret false
  end.

(** 1. ROM link *)
Definition step_link : M string :=
  send (Prompt L_link) ;;
  link_response <- get_response L_link ;;
  let main_link := strip link_response in
  if negb (is_link main_link)
  then send (Info "That doesn't look like a valid link. Please start again with /new.") ;;
       return_
  else ret main_link.

(** 2. Filename, fetched or asked *)
Definition step_filename (main_link : string) : M string :=
  send (Info "Attempting to fetch filename automatically...") ;;
  filename <-
    (if truthy ((get_filename_from_url E) main_link)
     then send (Info "Automatically fetched filename") ;;
          ret (default EmptyString ((get_filename_from_url E) main_link))
     else send (Prompt L_filename) ;;
          filename_response <- get_response L_filename ;;
          ret (strip filename_response)) ;;
  if negb (nonempty filename) || negb (endswith ".zip" (lower filename))
  then send (Info "Invalid filename (must end with .zip). Please start again with /new.") ;;
       return_
  else ret filename.

Definition with_version (v : option string) (r : Extractor.FilenameRecord) :=
  Extractor.MkRecord v (Extractor.build_date r) (Extractor.status r)
    (Extractor.variant_type r) (Extractor.device_name r) (Extractor.rom_name r).
Definition with_device (v : option string) (r : Extractor.FilenameRecord) :=
  Extractor.MkRecord (Extractor.version r) (Extractor.build_date r)
    (Extractor.status r) (Extractor.variant_type r) v (Extractor.rom_name r).
Definition with_status (v : option string) (r : Extractor.FilenameRecord) :=
  Extractor.MkRecord (Extractor.version r) (Extractor.build_date r) v
    (Extractor.variant_type r) (Extractor.device_name r) (Extractor.rom_name r).
Definition with_variant (v : option string) (r : Extractor.FilenameRecord) :=
  Extractor.MkRecord (Extractor.version r) (Extractor.build_date r)
    (Extractor.status r) v (Extractor.device_name r) (Extractor.rom_name r).

Definition is_unknown_version (v : option string) : bool :=
  match v with
  | None => true
  | Some s => String.eqb s "Unknown"
  end.

(** 3. Parse the filename and ask for what is missing: [parsed_info] *)
Definition step_parse (main_link filename : string)
    : M Extractor.FilenameRecord :=
  parsed <- lift (Extractor.parse_filename (today_dmy E) filename) ;;
  let info0 :=
    match parsed with
    | Some r => r
    | None => Extractor.MkRecord None (Some (today_dmy E)) (Some "Unofficial")
                                 None None None
    end in
  info1 <-
    (if is_unknown_version (Extractor.version info0)
     then send (Prompt L_version) ;;
          version_resp <- get_response L_version ;;
          ret (with_version (Some (strip version_resp)) info0)
     else ret info0) ;;
  info2 <-
    (if negb (truthy (Extractor.device_name info1))
     then send (Prompt L_device) ;;
          device_resp <- get_response L_device ;;
          ret (with_device (Some (lower (strip device_resp))) info1)
     else ret info1) ;;
  info3 <-
    (if negb (truthy (Extractor.status info2))
     then send (Prompt L_status) ;;
          status_resp <- wait_event L_status ;;
          answer_press status_resp ;;
          st <- lift (second_field (data status_resp)) ;;
          ret (with_status (Some st) info2)
     else ret info2) ;;
  send (Prompt L_variant) ;;
  variant_resp <- wait_event L_variant ;;
  answer_press variant_resp ;;
  variant_type0 <- lift (second_field (data variant_resp)) ;;
  variant_type <-
    (if String.eqb variant_type0 "CUSTOM"
     then send (Info "Enter your custom variant name:") ;;
          custom_variant <- get_response L_custom_variant ;;
          ret (upper (strip custom_variant))
     else ret variant_type0) ;;
  let info4 := with_variant (Some variant_type) info3 in
  draft_modify (update_parsed info4) ;;
  draft_modify
    (set_variants (fun vs => (vs ++ [MkVariant variant_type main_link None])%list)) ;;
  ret info4.

(** 4. ROM name *)
Definition step_rom_name (preset_chosen : bool)
    (parsed_info : Extractor.FilenameRecord) : M unit :=
  if negb preset_chosen
  then
    if truthy (Extractor.rom_name parsed_info)
    then
      send (Prompt L_rom_confirm) ;;
      rom_name_resp <- wait_event L_rom_confirm ;;
      answer_press rom_name_resp ;;
      if String.eqb (data rom_name_resp) "enter_new_rom_name"
      then send (Prompt L_rom_name) ;;
           rom_name_response <- get_response L_rom_name ;;
           draft_modify (set_rom_name (Some (strip rom_name_response)))
      else edit_press rom_name_resp (Info "Using ROM name")
    else
      send (Prompt L_rom_name) ;;
      rom_name_response <- get_response L_rom_name ;;
      draft_modify (set_rom_name (Some (strip rom_name_response)))
  else send (Info "Using ROM Name from preset").

(** 5. Additional variants: [while True], left by the choice No *)
Fixpoint step_more_variants (fuel : nat) : M unit :=
  match fuel with
  | O => fun w => (Diverged, w)
  | S fuel' =>
      send (Prompt L_add_variant) ;;
      add_variant_response <- wait_event L_add_variant ;;
      answer_press add_variant_response ;;
      try_edit_press add_variant_response (Choice (data add_variant_response)) ;;
      if String.eqb (data add_variant_response) "No"
      then ret tt
      else
        send (Prompt L_variant_name) ;;
        variant_name_resp <- get_response L_variant_name ;;
        let variant_name := upper (strip variant_name_resp) in
        send (Prompt L_variant_link) ;;
        variant_link_resp <- get_response L_variant_link ;;
        let variant_link := strip variant_link_resp in
        if negb (is_link variant_link)
        then send (Info "Invalid link. Skipping this variant.") ;;
             step_more_variants fuel'
        else
          draft_modify
            (set_variants
               (fun vs => (vs ++ [MkVariant variant_name variant_link None])%list)) ;;
          send (Info "Variant added.") ;;
          step_more_variants fuel'
  end.

(** Every iteration that goes on has taken an answer from the script: one
    more iteration than the script is long is enough. *)
Definition more_variants : M unit :=
  fun w => step_more_variants (S (length (script w))) w.

(** 6. Support group *)
Definition step_support (saved : option string) : M unit :=
  send (Prompt L_support) ;;
  support_resp <- get_response_or_callback L_support ;;
  match support_resp with
  | Callback p =>
      if String.eqb (data p) "reuse_support"
      then draft_modify (set_support_group saved)
      else if String.eqb (data p) "skip_support"
      then draft_modify (set_support_group None)
      else ret tt
  | Message text =>
      let text_input := strip text in
      if String.eqb (lower text_input) "skip"
      then draft_modify (set_support_group None)
      else if is_link text_input
      then draft_modify (set_support_group (Some text_input)) ;;
           db_modify (save_user_data (sender_id ev) (Some text_input) None None None)
      else send (Info "Invalid link format. Skipping support group.") ;;
           draft_modify (set_support_group None)
  end.

(** 7. Screenshots *)
Definition step_screenshots : M unit :=
  send (Prompt L_screenshots) ;;
  ss_resp <- get_response_or_callback L_screenshots ;;
  match ss_resp with
  | Callback p =>
      if String.eqb (data p) "skip_ss"
      then draft_modify (set_screenshots None)
      else send (Info "Invalid input. Skipping screenshots.") ;;
           draft_modify (set_screenshots None)
  | Message text =>
      let ss_text := strip text in
      if is_link ss_text
      then draft_modify (set_screenshots (Some ss_text))
      else send (Info "Invalid link format. Skipping screenshots.") ;;
           draft_modify (set_screenshots None)
  end.

(** What a changelog step has collected: [*_text], [*_link], [*_skipped] *)
Record collected : Type := MkCollected {
  c_text : option string;
  c_link : option string;
  c_skipped : bool
}.

Definition option_eqb (a b : option string) : bool :=
  match a, b with
  | Some x, Some y => String.eqb x y
  | None, None => true
  | _, _ => false
  end.

(** 8. Device changelog *)
Definition step_device_changelog (saved : option string) : M unit :=
  send (Prompt L_device_cl) ;;
  dc_resp <- get_response_or_callback L_device_cl ;;
  let dc :=
    match dc_resp with
    | Callback p =>
        if String.eqb (data p) "reuse_dc" then MkCollected None saved false
        else if String.eqb (data p) "none_dc" then MkCollected None None true
        else MkCollected None None false
    | Message text =>
        let resp_text := strip text in
        if String.eqb (lower resp_text) "none" then MkCollected None None true
        else if is_link resp_text then MkCollected None (Some resp_text) false
        else MkCollected (Some resp_text) None false
    end in
  if negb (c_skipped dc)
  then
    if truthy (c_link dc)
    then
      draft_modify (set_device_changelog (c_link dc)) ;;
      if negb (option_eqb (c_link dc) saved)
      then
        send (Prompt L_save_device_cl) ;;
        save_dc_resp <- wait_event L_save_device_cl ;;
        answer_press save_dc_resp ;;
        if String.eqb (data save_dc_resp) "save_dc"
        then db_modify (save_user_data (sender_id ev) None None None (c_link dc)) ;;
             edit_press save_dc_resp (Info "Link saved.")
        else edit_press save_dc_resp (Info "Link not saved.")
      else ret tt
    else if truthy (c_text dc)
    then
      let paste_link :=
        (create_paste E) (Extractor.or_default (c_text dc) EmptyString) in
      if truthy paste_link
      then draft_modify (set_device_changelog paste_link) ;;
           send (Info "Device changelog text uploaded")
      else send (Info "Failed to upload device changelog text to Pastebin. Skipping.") ;;
           draft_modify (set_device_changelog None)
    else ret tt
  else draft_modify (set_device_changelog None).

(** 9. Source changelog *)
Definition step_source_changelog (preset_chosen : bool) : M unit :=
  d0 <- draft_get ;;
  if negb preset_chosen || negb (truthy (source_changelog d0))
  then
    send (Prompt L_source_cl) ;;
    sc_resp <- get_response_or_callback L_source_cl ;;
    sc <-
      match sc_resp with
      | Callback p =>
          if String.eqb (data p) "none_sc"
          then ret (MkCollected None None true)
          else send (Info "Invalid input for Source Changelog. Skipping.") ;;
               ret (MkCollected None None true)
      | Message text =>
          let resp_text := strip text in
          if is_link resp_text then ret (MkCollected None (Some resp_text) false)
          else ret (MkCollected (Some resp_text) None false)
      end ;;
    if negb (c_skipped sc)
    then
      if truthy (c_link sc)
      then draft_modify (set_source_changelog (c_link sc))
      else if truthy (c_text sc)
      then
        let paste_link :=
          (create_paste E) (Extractor.or_default (c_text sc) EmptyString) in
        if truthy paste_link
        then draft_modify (set_source_changelog paste_link) ;;
             send (Info "Source changelog text uploaded")
        else send (Info "Failed to upload source changelog text to Pastebin. Skipping.") ;;
             draft_modify (set_source_changelog None)
      else ret tt
    else draft_modify (set_source_changelog None)
  else send (Info "Using Source Changelog from preset").

(** 10. Notes *)
Definition step_notes (saved : option string) : M unit :=
  send (Prompt L_notes) ;;
  notes_resp <- get_response_or_callback L_notes ;;
  match notes_resp with
  | Callback p =>
      if String.eqb (data p) "reuse_notes"
      then draft_modify (set_notes saved)
      else if String.eqb (data p) "skip_notes"
      then draft_modify (set_notes None)
      else ret tt
  | Message text =>
      let notes_text := strip text in
      if String.eqb (lower notes_text) "skip"
      then draft_modify (set_notes None)
      else draft_modify (set_notes (Some (format_bullets notes_text))) ;;
           db_modify (save_user_data (sender_id ev) None
                        (Some (format_bullets notes_text)) None None)
  end.

(** 11. Credits *)
Definition step_credits (saved : option string) : M unit :=
  send (Prompt L_credits) ;;
  credits_resp <- get_response_or_callback L_credits ;;
  match credits_resp with
  | Callback p =>
      if String.eqb (data p) "reuse_credits"
      then draft_modify (set_credits saved)
      else if String.eqb (data p) "skip_credits"
      then draft_modify (set_credits None)
      else ret tt
  | Message text =>
      let credits_text := strip text in
      if String.eqb (lower credits_text) "skip"
      then draft_modify (set_credits None)
      else draft_modify (set_credits (Some (format_bullets credits_text))) ;;
           db_modify (save_user_data (sender_id ev) None None
                        (Some (format_bullets credits_text)) None)
  end.

(** 12. Checksums: one prompt per variant of [post_data["variants"]] *)
Fixpoint checksum_loop (i : nat) (vs : list variant) : M unit :=
  match vs with
  | [] => ret tt
  | _ :: vs' =>
      send (Prompt L_sha) ;;
      sha_resp <- get_response_or_callback L_sha ;;
      match sha_resp with
      | Callback p =>
          if String.eqb (data p) "skip_sha"
          then draft_modify (set_sha i None)
          else send (Info "Invalid input for checksum. Skipping.") ;;
               draft_modify (set_sha i None)
      | Message text =>
          let sha_text := strip text in
          if nonempty sha_text
          then draft_modify (set_sha i (Some sha_text))
          else send (Info "Empty checksum received. Skipping.") ;;
               draft_modify (set_sha i None)
      end ;;
      checksum_loop (S i) vs'
  end.

Definition step_checksums : M unit :=
  send (Prompt L_add_sha) ;;
  add_sha_response <- wait_event L_add_sha ;;
  answer_press add_sha_response ;;
  try_edit_press add_sha_response (Choice (data add_sha_response)) ;;
  if String.eqb (data add_sha_response) "Yes"
  then d <- draft_get ;; checksum_loop 0 (variants d)
  else ret tt.

(** The banner previews: [banner_paths] for the styles 1 and 2.  An
    exception of the generator ends the attempt and keeps what was made. *)
Definition make_banners (d : post_data) : M (option string * option string) :=
  if (BANNER_SUPPORT E)
  then
    match (generate_banner_file E) d 1 with
    | Ok p1 =>
        let b1 := if truthy p1 then p1 else None in
        match (generate_banner_file E) d 2 with
        | Ok p2 => ret (b1, if truthy p2 then p2 else None)
        | Raise e => if is_Exception e then ret (b1, None) else raise e
        end
    | Raise e => if is_Exception e then ret (None, None) else raise e
    end
  else ret (None, None).

(** [banner_paths.get(selected_banner) if selected_banner else None] *)
Definition banner_path (banners : option string * option string)
    (selected : option nat) : option string :=
  match selected with
  | Some 1 => fst banners
  | Some 2 => snd banners
  | _ => None
  end.

(** [update_preview_message()]: sends the preview the first time and edits
    it afterwards; what it leaves in [preview_message] *)
Definition update_preview_message (pv : preview) : M preview :=
  let shown := Preview (selected_format pv) (selected_banner pv) false in
  try_except
    (match preview_message pv with
     | None =>
         send shown ;;
         ret (MkPreview (selected_format pv) (selected_banner pv) (Some shown))
     | Some _ =>
         edit_message shown ;;
         ret pv
     end)
    (fun e =>
       if exn_eqb e MessageNotModifiedError then Some (ret pv)
       else if is_Exception e
       then Some
              match preview_message pv with
              | None =>
                  let simple :=
                    Preview (selected_format pv) (selected_banner pv) true in
                  send simple ;;
                  ret (MkPreview (selected_format pv) (selected_banner pv)
                                 (Some simple))
              | Some _ => ret pv
              end
       else None).

(** The selection an action of the preview buttons makes, [None] for an
    unknown action *)
Definition select (action : string) (pv : preview) : option preview :=
  if String.eqb action "preview_format_default"
  then Some (MkPreview "default" (selected_banner pv) (preview_message pv))
  else if String.eqb action "preview_format_minimal"
  then Some (MkPreview "minimal" (selected_banner pv) (preview_message pv))
  else if String.eqb action "preview_banner_1"
  then Some (MkPreview (selected_format pv) (Some 1) (preview_message pv))
  else if String.eqb action "preview_banner_2"
  then Some (MkPreview (selected_format pv) (Some 2) (preview_message pv))
  else if String.eqb action "preview_banner_none"
  then Some (MkPreview (selected_format pv) None (preview_message pv))
  else None.

(** The [except asyncio.TimeoutError] clause of the selection loop; [pv] is
    the selection at the time of the exception. *)
Definition selection_timeout (pv : preview) (m : M (loop_control * preview))
    : M (loop_control * preview) :=
  try_except m
    (fun e =>
       if exn_eqb e TimeoutError
       then Some (send SelectionTimedOut ;; ret (Break, pv))
       else None).

(** The selection loop.  Its [try] block is entered in two parts, before
    and after the selection is assigned, with the one [except] clause. *)
Fixpoint selection_loop (fuel : nat) (pv : preview) : M preview :=
  match fuel with
  | O => fun w => (Diverged, w)
  | S fuel' =>
      r <- selection_timeout pv
             (button_pressed <- wait_event L_preview ;;
              answer_press button_pressed ;;
              let action := data button_pressed in
              if String.eqb action "preview_confirm" then ret (Break, pv)
              else
                match select action pv with
                | Some pv' =>
                    selection_timeout pv'
                      (pv'' <- update_preview_message pv' ;;
                       ret (Continue, pv''))
                | None => ret (Continue, pv)
                end) ;;
      match r with
      | (Break, pv') => ret pv'
      | (Continue, pv') => selection_loop fuel' pv'
      end
  end.

Definition selection (pv : preview) : M preview :=
  fun w => selection_loop (S (length (script w))) pv w.

(** Indexing and posting *)
Definition step_post (final_post : string) (final_banner_path : option string)
    : M unit :=
  let final :=
    FinalPost final_post
      (if truthy final_banner_path
          && (path_exists E) (Extractor.or_default final_banner_path EmptyString)
       then final_banner_path else None) in
  if (INDEX_SUPPORT E)
  then
    try_except
      (d <- draft_get ;;
       (if negb (truthy (p_device_name d)) then raise ValueError else ret tt) ;;
       (if negb (truthy (p_rom_name d)) then raise ValueError else ret tt) ;;
       let '(success, message_link) :=
         (post_to_channel E) d final_post final_banner_path in
       if success
       then
         modify (add_log (Posted final_post final_banner_path)) ;;
         send (Info "Posted to channel successfully!") ;;
         (if (add_to_index E) d message_link
          then modify (add_log
                 (Indexed (Extractor.or_default (p_device_name d) EmptyString)
                          (Extractor.or_default (p_rom_name d) EmptyString)
                          (Extractor.or_default message_link EmptyString))) ;;
               send (Info "Added to device index!")
          else send (Info "Failed to add to device index.")) ;;
         send (Info "Here is your post as it appears in the channel:") ;;
         send final
       else
         send (Info "Failed to post to channel. Your post was created but not indexed.") ;;
         send (Info "Here's what your post would have looked like:") ;;
         send final)
      (fun e =>
         if exn_eqb e ValueError
         then Some (send (Info "Error: Cannot post to channel."))
         else if is_Exception e
         then Some (send (Info "Error during channel posting"))
         else None)
  else
    send (Info "Note: Channel posting/indexing is not available. Here is your generated post text:") ;;
    send final.

(** Previews, selection, posting and the post count *)
Definition step_publish : M unit :=
  send (Info "Generating previews...") ;;
  d <- draft_get ;;
  let text_previews (format : string) :=
    if String.eqb format "minimal" then (generate_post_text E) "minimal" d
    else (generate_post_text E) "default" d in
  banners <- make_banners d ;;
  let first_banner :=
    match fst banners with Some _ => Some 1 | None => None end in
  pv0 <- update_preview_message (MkPreview "default" first_banner None) ;;
  pv <- selection pv0 ;;
  let final_post := text_previews (selected_format pv) in
  let final_banner_path := banner_path banners (selected_banner pv) in
  step_post final_post final_banner_path ;;
  db_modify (increment_post_count (today_iso E) (now_stamp E) (sender_id ev)
               (sender_username ev) (sender_first_name ev) (sender_last_name ev)).

(** [async with client.conversation(chat_id, ..., exclusive=True)]: an
    exclusive conversation is refused when the chat has one open, and is
    closed on every way out of the block. *)
Definition with_conversation {A} (body : M A) : M A :=
  busy <- gets (fun w => bool_decide (chat_id ev ∈ conversations w)) ;;
  if busy then raise AlreadyInConversationError
  else
    modify (set_conversations (fun c => {[chat_id ev]} ∪ c)) ;;
    try_finally body
      (modify (set_conversations (fun c => c ∖ {[chat_id ev]}))).

(** The body of the [async with] block *)
Definition wizard (saved_data : option saved_row)
    (available_presets : list string) : M unit :=
  modify (set_active (insert (conv_key ev) (chat_id ev))) ;;
  preset_chosen <- step_preset available_presets ;;
  main_link <- step_link ;;
  filename <- step_filename main_link ;;
  parsed_info <- step_parse main_link filename ;;
  step_rom_name preset_chosen parsed_info ;;
  more_variants ;;
  step_support (match saved_data with Some r => saved_support r | None => None end) ;;
  step_screenshots ;;
  step_device_changelog
    (match saved_data with Some r => saved_device_cl r | None => None end) ;;
  step_source_changelog preset_chosen ;;
  step_notes (match saved_data with Some r => saved_notes r | None => None end) ;;
  step_credits (match saved_data with Some r => saved_credits r | None => None end) ;;
  step_checksums ;;
  step_publish.

(** The [try] statement of the handler, with its three [except] clauses
    and its [finally] *)
Definition session (saved_data : option saved_row)
    (available_presets : list string) : M unit :=
  try_finally
    (try_except
       (with_conversation (wizard saved_data available_presets))
       (fun e =>
          if exn_eqb e TimeoutError then Some (reply CommandTimedOut)
          else if exn_eqb e AlreadyInConversationError
          then Some (reply AlreadyInConversation)
          else if is_Exception e then Some (reply (ErrorOccurred e))
          else None))
    (active <- gets (fun w =>
                 bool_decide (is_Some (active_conversations w !! conv_key ev))) ;;
     if active then modify (set_active (delete (conv_key ev))) else ret tt).

(** The checks of the handler before it starts a session; each refusal
    replies and returns. *)
Definition gates : M unit :=
  banned <- gets (fun w => is_banned (sender_id ev) (db w)) ;;
  (if banned then reply Banned ;; return_ else ret tt) ;;
  d <- gets db ;;
  (if negb (is_allowed_chat (chat_id ev) d || (is_private ev && pm_enabled d))
   then if negb (is_owner (sender_id ev) d)
        then reply NotAllowedHere ;; return_
        else ret tt
   else ret tt) ;;
  (if negb (is_owner (sender_id ev) d)
   then let '(can_post, remaining) :=
          check_post_limit (today_iso E) (sender_id ev) d in
        if negb can_post then reply LimitReached ;; return_
        else reply (Remaining remaining)
   else ret tt) ;;
  active <- gets (fun w =>
              bool_decide (is_Some (active_conversations w !! conv_key ev))) ;;
  if active then reply AlreadyActive ;; return_ else ret tt.

(** [new_post_handler(event)].  The [post_data] of the session lives as
    long as the coroutine. *)
Definition new_post_handler : M unit :=
  gates ;;
  db_modify (update_user_stats (now_stamp E) (sender_id ev) (sender_username ev)
               (sender_first_name ev) (sender_last_name ev) 0 None) ;;
  saved_data <- gets (fun w => get_user_data (sender_id ev) (db w)) ;;
  available_presets <- gets (fun w => list_presets (db w)) ;;
  modify (set_drafts (insert (conv_key ev) (initial_post ev))) ;;
  try_finally (session saved_data available_presets)
    (modify (set_drafts (delete (conv_key ev)))).

(** A message with text [t] that the user sends while their session
    waits.  It is an incoming message of the chat, and the client hands it
    to every listener: to the open conversation, whose pending
    [conv.get_response()] takes the next incoming message whatever its text
    (src/bot.py 1289), to the callback [get_response_or_callback] has
    registered, which takes any message of the chat and sender (src/bot.py
    1197-1210), and, when [t] begins with /new, to [new_post_handler].  A
    session is embedded as one run on the [script] of what its user does
    next, so the message becomes the head of the script; [rest] is the
    running session from its pending wait on.  The coroutines interleave
    at their awaits in an order the source does not fix: here the call of
    the handler comes first, and what it raises goes to the log of the
    client. *)
Definition new_during_session (t : string) (rest : M unit) : M unit :=
  fun w =>
    let w' := snd (new_post_handler w) in
    rest (set_script (Text t :: script w') w').

End Handler.

End Bot.

(** ** Vocabulary of the statements about dates *)

Module DateSpec.
Import PyStr Re Py Datetime Extractor.
Local Open Scope N_scope.

Definition digits : list ascii :=
  ["0"; "1"; "2"; "3"; "4"; "5"; "6"; "7"; "8"; "9"]%char.

(** [s[a:a+n]] *)
Definition sub (a n : nat) (s : string) : string := String.substring a n s.

(** The shape dd/mm/yy *)
Definition is_dmy (s : string) : bool :=
  match s with
  | String a (String b (String s1 (String c (String d (String s2
      (String e (String f EmptyString))))))) =>
      is_digit a && is_digit b && Ascii.eqb s1 "/"%char
      && is_digit c && is_digit d && Ascii.eqb s2 "/"%char
      && is_digit e && is_digit f
  | _ => false
  end.

(** An eight-digit text read at fixed positions as YYYYMMDD: the date
    exists, and its rendering [dd/mm/yy] made of the digits themselves. *)
Definition ymd8_valid (t : string) : bool :=
  valid_date (int_of (sub 0 4 t)) (int_of (sub 4 2 t)) (int_of (sub 6 2 t)).
Definition ymd8_render (t : string) : string :=
  (sub 6 2 t ++ "/" ++ sub 4 2 t ++ "/" ++ sub 2 2 t)%string.

(** A six-digit text read as YYMMDD, the century chosen as [%y] does. *)
Definition ymd6_valid (t : string) : bool :=
  valid_date (year_of Y2 (sub 0 2 t)) (int_of (sub 2 2 t)) (int_of (sub 4 2 t)).
Definition ymd6_render (t : string) : string :=
  (sub 4 2 t ++ "/" ++ sub 2 2 t ++ "/" ++ sub 0 2 t)%string.

Definition md_fields_ok (mm dd : N) : bool :=
  (1 <=? mm) && (mm <=? 12) && (1 <=? dd) && (dd <=? 31).

(** What the backtracking match of [%m%d] does on four digits, as a
    decidable check. *)
Definition md4_check (m1 m2 d1 d2 : ascii) : bool :=
  let mm := 10 * digit_val m1 + digit_val m2 in
  let dd := 10 * digit_val d1 + digit_val d2 in
  match match_md (String m1 (String m2 (String d1 (String d2 EmptyString)))) with
  | Some (m, d, EmptyString) => md_fields_ok mm dd && (m =? mm) && (d =? dd)
  | _ => negb (md_fields_ok mm dd)
  end.

Definition md4_table : bool :=
  forallb (fun m1 => forallb (fun m2 => forallb (fun d1 => forallb (fun d2 =>
    md4_check m1 m2 d1 d2) digits) digits) digits) digits.

(** The rendering of [t] when [strptime] accepts it *)
Definition parsed_render (f : year_directive) (t : string) : option string :=
  match strptime f t with
  | Ok d => Some (strftime_dmy d)
  | Raise _ => None
  end.

(** The text [parse_date] hands to [strptime], and the directive *)
Definition date_text (s : string) : year_directive * string :=
  if (String.length s =? 8)%nat then (Y4, s)
  else if (String.length s =? 6)%nat then (Y2, s)
  else (Y4, if (8 <? String.length s)%nat then last_n 8 s else s).

(** The digit run the scanning loop keeps as build date, if any. *)
Definition found_date (filename : string) : option string :=
  let c := clean filename in
  s_build_date (scan_parts (initial_scan c) (tl (split_on "-"%char c))).

(** What the statement of the specification says of a raw digit run [s] and
    of the text [r] stored in its place. *)
Definition date_rule (s r : string) : Prop :=
  (r = s \/ is_dmy r = true)
  /\ (String.length s = 8%nat ->
      r = if ymd8_valid s then ymd8_render s else s)
  /\ (String.length s = 6%nat ->
      r = if ymd6_valid s then ymd6_render s else s)
  /\ ((8 < String.length s)%nat ->
      r = if ymd8_valid (last_n 8 s) then ymd8_render (last_n 8 s) else s).

End DateSpec.

(** ** Vocabulary of the statements about [parse_filename] *)

Module ExtractorSpec.
Import PyStr Re Py Datetime Extractor.

(** The segments of the normalized filename *)
Definition parts (filename : string) : list string :=
  split_on "-"%char (clean filename).

Definition nonempty_segments (filename : string) : list string :=
  List.filter nonempty (parts filename).

Definition has_hyphen (filename : string) : bool :=
  sexists (fun c => Ascii.eqb c "-"%char) filename.

(** The loop variables when the scanning loop ends *)
Definition final_scan (filename : string) : scan :=
  scan_parts (initial_scan (clean filename)) (tl (parts filename)).

(** Priorities compare as [found_status_priority] does, [None] being
    [float('inf')]. *)
Definition prio_le (a b : option nat) : Prop :=
  match a, b with
  | Some i, Some j => i <= j
  | Some _, None => True
  | None, Some _ => False
  | None, None => True
  end.

(** The build date kept by the loop is a digit run. *)
Definition date_invariant (st : scan) : Prop :=
  forall s, s_build_date st = Some s ->
            sforall is_digit s = true /\ 6 <= String.length s.

(** The status kept is the keyword at the priority kept. *)
Definition status_invariant (all : list string) (found : option nat)
    (st : option string) : Prop :=
  forall j, found = Some j -> exists k, nth_error all j = Some k /\ st = Some k.

(** What every iteration preserves of the loop variables *)
Definition scan_wf (st : scan) : Prop :=
  status_invariant status_priority (found_status_priority st) (s_status st)
  /\ (forall k, s_variant st = Some k -> In k variant_keywords).

(** [st'] comes later in the loop than [st]: the priority found only
    improves, a version or a variant once set stays, candidates are only
    appended. *)
Definition scan_le (st st' : scan) : Prop :=
  prio_le (found_status_priority st') (found_status_priority st)
  /\ (forall v, s_version st = Some v -> s_version st' = Some v)
  /\ (forall k, s_variant st = Some k -> s_variant st' = Some k)
  /\ (forall c, In c (device_candidates st) -> In c (device_candidates st')).

Definition has_keyword (kws : list string) (cp : string) : bool :=
  existsb (fun k => contains k cp) kws.

(** The loop variables when the loop comes to the segment that follows
    the segments [pre] *)
Definition scan_before (filename : string) (pre : list string) : scan :=
  scan_parts (initial_scan (clean filename)) pre.

(** The test by which the loop takes a segment as the version: no version
    is set when the loop comes to the segment, neither by the dotted search
    nor by an earlier segment, and the segment looks like a version. *)
Definition taken_as_version (st : scan) (part : string) : bool :=
  match s_version st with None => true | Some _ => false end
  && version_like (clean_part part).

(** The segment goes through the keyword tests of the loop: it is not
    empty, no run of six digits or more, and not taken as the version. *)
Definition is_scanned (st : scan) (part : string) : bool :=
  nonempty (clean_part part) && negb (match_date (clean_part part))
  && negb (taken_as_version st part).

End ExtractorSpec.

(** ** Vocabulary of the statements about the bot *)

Module BotSpec.
Import PyStr Py Bot.

(** The registrations of the client other than those of the callback [h] *)
Definition others_of (h : nat) (l : list (builder * nat)) : list (builder * nat) :=
  List.filter (fun e => negb (Nat.eqb (snd e) h)) l.

(** What a call of the router yields on the next thing the user does *)
Definition router_outcome (a : answer) : outcome response :=
  match a with
  | Text t => Normal (Message t)
  | Button p =>
      match answer_fails p with
      | Some e => Exc e
      | None =>
          match edit_fails p with
          | Some e => if is_Exception e then Normal (Callback p) else Exc e
          | None => Normal (Callback p)
          end
      end
  | Fails e => Exc e
  end.

(** Two worlds that differ at most by their logs *)
Definition same_but_log (w w' : world) : Prop :=
  active_conversations w' = active_conversations w
  /\ conversations w' = conversations w
  /\ event_builders w' = event_builders w
  /\ next_handler w' = next_handler w
  /\ db w' = db w
  /\ drafts w' = drafts w
  /\ script w' = script w.

(** What a request that finds its session key taken is answered, newest
    first: the message of the first check that stops it, the conflict
    message when none does (after the notice of the posts that remain, for
    any sender but the owner). *)
Definition refusal_log (E : environment) (ev : new_message) (d : database)
    : list event :=
  if is_banned (sender_id ev) d then [Replied Banned]
  else if negb (is_allowed_chat (chat_id ev) d || (is_private ev && pm_enabled d))
          && negb (is_owner (sender_id ev) d)
  then [Replied NotAllowedHere]
  else if is_owner (sender_id ev) d then [Replied AlreadyActive]
  else if negb (fst (check_post_limit (today_iso E) (sender_id ev) d))
  then [Replied LimitReached]
  else [Replied AlreadyActive;
        Replied (Remaining (snd (check_post_limit (today_iso E) (sender_id ev) d)))].

(** The event of a wait of step [l] that times out *)
Definition timeout_at (l : label) : event := Awaited l (Fails TimeoutError).

(** No wait has timed out among [new], but for the selection of the
    preview. *)
Definition quiet (new : list event) : Prop :=
  forall l, In (timeout_at l) new -> is_preview l = true.

(** Since the log was [log0], nothing but the selection has timed out. *)
Definition calm (log0 : list event) (w : world) : Prop :=
  exists new, log w = (new ++ log0)%list /\ quiet new.

(** The last thing that happened is the time-out of a wait other than the
    selection, the first since the log was [log0]. *)
Definition timed_out (log0 : list event) (w : world) : Prop :=
  exists l new, is_preview l = false
                /\ log w = (timeout_at l :: new ++ log0)%list /\ quiet new.

Definition settled {A} (log0 : list event) (out : outcome A) (w : world) : Prop :=
  match out with
  | Exc TimeoutError => calm log0 w \/ timed_out log0 w
  | Diverged => False
  | _ => calm log0 w
  end.

(** The judgement the steps of the wizard are checked against, from worlds
    whose script holds at most [n] answers: the step ends [settled] (and
    [calm] whatever its outcome when [c] is set), it does not lengthen the
    script, and it shortens it when it returns a value that [s] marks. *)
Definition good {A} (c : bool) (s : A -> bool) (n : nat) (m : M A) : Prop :=
  forall log0 w,
    length (script w) <= n -> calm log0 w ->
    (if c then calm log0 (snd (m w)) /\ fst (m w) <> Diverged
     else settled log0 (fst (m w)) (snd (m w)))
    /\ length (script (snd (m w))) <= length (script w)
    /\ (forall a, fst (m w) = Normal a -> s a = true ->
                  length (script (snd (m w))) < length (script w)).

Definition unmarked {A} : A -> bool := fun _ => false.
Definition marked {A} : A -> bool := fun _ => true.

(** A step that waits for nothing: it leaves the script alone and logs no
    wait. *)
Definition waitless {A} (m : M A) : Prop :=
  forall w,
    fst (m w) <> Diverged
    /\ script (snd (m w)) = script w
    /\ exists evs, log (snd (m w)) = (evs ++ log w)%list
                   /\ forall l a, ~ In (Awaited l a) evs.

(** A [finally] block that cannot fail and touches neither script nor log *)
Definition neutral (fin : M unit) : Prop :=
  forall w, fst (fin w) = Normal tt
            /\ script (snd (fin w)) = script w
            /\ log (snd (fin w)) = log w.

Definition is_continue (r : loop_control * preview) : bool :=
  match fst r with
  | Continue => true
  | Break => false
  end.

(** The events logged between two worlds *)
Definition events_since (w w' : world) : list event :=
  firstn (length (log w') - length (log w)) (log w').

End BotSpec.

(** ** A bot, a user and what the user does *)

Module Scenario.
Import PyStr Py Bot.

(** A transport that refuses nothing, a resolver that finds the filename,
    no banner support, and a channel that accepts the post *)
Definition bot_env : environment :=
  MkEnv "06/11/26" "2026-11-06" "2026-11-06 10:00:00"
        (fun _ => None) (fun _ => None)
        (fun _ => Some "Axion-v6.2-cancunf-OFFICIAL-GAPPS-20240115.zip")
        (fun _ => None) (fun format _ => format) false true
        (fun _ _ => Ok None) (fun _ => false)
        (fun _ _ _ => (true, Some "https://t.me/c/1/2")) (fun _ _ => true)
        "* ".

(** User 7 sends /new in the allowed chat 10. *)
Definition request : new_message :=
  MkMessage 10 7 false (Some "ayan") None None "Ayan".

Definition settings : database :=
  MkDb ∅ None false {[10%Z]} ∅ ∅ ∅ ∅.

Definition pressed (d : string) : answer := Button (MkPress d None None).

(** No session is running; the user will do what [s] says. *)
Definition idle (s : list answer) : world :=
  MkWorld ∅ ∅ [] 0 settings ∅ s [].

(** The answers that lead the wizard to its preview *)
Definition up_to_preview : list answer :=
  [Text "https://example.org/Axion-v6.2-cancunf-OFFICIAL-GAPPS-20240115.zip";
   pressed "variant_GAPPS"; pressed "use_parsed_rom_name"; pressed "No";
   pressed "skip_support"; pressed "skip_ss"; pressed "none_dc";
   pressed "none_sc"; pressed "skip_notes"; pressed "skip_credits";
   pressed "No"].

(** The answers up to the link of a second variant, which never comes *)
Definition up_to_variant_link : list answer :=
  [Text "https://example.org/Axion-v6.2-cancunf-OFFICIAL-GAPPS-20240115.zip";
   pressed "variant_GAPPS"; pressed "use_parsed_rom_name"; pressed "Yes";
   Text "vanilla"; Fails TimeoutError].

(** User 7 has a session running in chat 10 and has posted twice today
    from elsewhere. *)
Definition two_posts_today : database :=
  MkDb ∅ None false {[10%Z]} {[ (7%Z, "2026-11-06") := 2%Z ]} ∅ ∅ ∅.

Definition in_session (d : database) : world :=
  MkWorld {[ (10%Z, 7%Z) := 10%Z ]} {[10%Z]} [] 0 d
          {[ (10%Z, 7%Z) := initial_post request ]} [] [Sent (Prompt L_link)].

End Scenario.

(** ** The other database functions of src/bot.py *)

Module BotDb.
Import PyStr Py Bot.

Definition set_rom_presets
    (f : gmap string (string * option string) ->
         gmap string (string * option string)) (d : database) : database :=
  MkDb (banned_users d) (owner_id d) (pm_enabled d) (allowed_chats d)
       (post_limits d) (user_stats d) (user_data d) (f (rom_presets d)).


Definition delete_preset (preset_name : string) (d : database) : database :=
  set_rom_presets (delete (lower preset_name)) d.


(** [get_pm_setting()], [set_pm_setting(enabled)] *)
Definition get_pm_setting (d : database) : bool := pm_enabled d.

Definition get_allowed_chats (d : database) : gset Z := allowed_chats d.


End BotDb.

(** ** The other commands of src/bot.py *)

Module Commands.
Import PyStr Py Bot BotDb.
Local Open Scope wizard_scope.

(** The first run of non-space characters of [s], and what follows it *)
Fixpoint take_word (s : string) : string :=
  match s with
  | EmptyString => EmptyString
  | String c r => if is_space c then EmptyString else String c (take_word r)
  end.
Fixpoint drop_word (s : string) : string :=
  match s with
  | EmptyString => EmptyString
  | String c r => if is_space c then s else drop_word r
  end.

(** [s.split(maxsplit=n)]: at most [n] words from the left, then the rest
    of the text without the space before it *)
Fixpoint split_max (n : nat) (s : string) : list string :=
  match lstrip s with
  | EmptyString => []
  | s1 =>
      match n with
      | 0 => [s1]
      | S n' => take_word s1 :: split_max n' (drop_word s1)
      end
  end.

(** What a [command_func] of [owner_command] returns *)
Inductive value : Type :=
| Str (s : string)
| Bool (b : bool)
| NoneValue.

Definition not_authorized : msg :=
  Info "You are not authorized to use this command.".

Section Handlers.

(** [int(s)] on a text: the integer, or [None] for its [ValueError] *)
Variable int : string -> option Z.

Variable E : environment.

(** The incoming message, [event.message.text] and its sender *)
Variable ev : new_message.
Variable text : string.


(** [owner_command(event, command_func, success_msg, error_msg,
    requires_arg)] *)
Definition owner_command (command_func : option string -> M value)
    (success_msg error_msg : string) (requires_arg : bool) : M unit :=
  owner <- gets (fun w => is_owner (sender_id ev) (db w)) ;;
  if negb owner then reply E not_authorized ;; return_
  else
    arg_str <-
      (if requires_arg
       then match split_max 1 text with
            | _ :: a :: _ => ret (Some a)
            | _ => reply E (Info error_msg) ;; return_
            end
       else ret None) ;;
    try_except
      (result <- command_func arg_str ;;
       match result with
       | Str s => reply E (Info s)
       | Bool true => reply E (Info success_msg)
       | _ => reply E (Info error_msg)
       end)
      (fun e => if is_Exception e then Some (reply E (Info error_msg)) else None).







(** [delpreset_handler]: the wrapper answers with a text of its own. *)
Definition delete_preset_wrapper (arg : option string) : M value :=
  let preset_name_lower := lower (default EmptyString arg) in
  existing <- gets (fun w => get_preset preset_name_lower (db w)) ;;
  match existing with
  | None => ret (Str "Preset not found.")
  | Some _ =>
      modify (set_db (delete_preset preset_name_lower)) ;;
      ret (Str "Preset deleted.")
  end.

Definition delpreset_handler : M unit :=
  owner_command delete_preset_wrapper
    EmptyString "Usage: /delpreset <preset_name>" true.

(** [await conv.cancel()]: [cancel_fails] tells which conversations refuse
    it, and with what exception.  What it does to the waits of the session
    it cancels lies outside the state of this embedding. *)
Variable cancel_fails : Z -> option exn.






(** [await client.get_entity(user_id)]: [get_entity_fails] tells for which
    users it raises. *)
Variable get_entity_fails : Z -> option exn.




End Handlers.

End Commands.

(** ** Vocabulary of the statements about the commands *)

Module CommandSpec.
Import PyStr Py Bot.







End CommandSpec.

(** ** The device index of src/index.py *)

Module IndexDb.
Import PyStr Re Py.

(** A row of the table rom_index, but for the two columns of its key *)
Record index_row : Type := MkRow {
  r_id : Z;
  r_rom_name : string;
  r_version : option string;
  r_status : option string;
  r_post_date : string
}.

(** The table: its rows by device name and message link, the pair the
    table keeps unique, and the largest id given so far, which
    AUTOINCREMENT never reuses.  The queries are those of a database that
    can be opened and written. *)
Record rom_index : Type := MkIndex {
  rows : gmap (string * string) index_row;
  last_id : Z
}.


(** [device_name.lower().strip()] and then
    [re.sub(r'[^a-z0-9]', '', device_name)] *)
Definition normalize_device_name (device_name : string) : string :=
  sfilter is_lower_or_digit (strip (lower device_name)).

(** [add_to_index(device_name, rom_name, message_link, version, status)];
    [now] is the time of the call as the function formats it. *)
Definition add_to_index (now : string)
    (device_name rom_name message_link version status : option string)
    (t : rom_index) : bool * rom_index :=
  if negb (Bot.truthy device_name) || negb (Bot.truthy rom_name)
     || negb (Bot.truthy message_link)
  then (false, t)
  else
    let dn := normalize_device_name (default EmptyString device_name) in
    if negb (nonempty dn) then (false, t)
    else
      (true,
       MkIndex
         (<[(dn, default EmptyString message_link) :=
              MkRow (last_id t + 1) (default EmptyString rom_name)
                    version status now]> (rows t))
         (last_id t + 1)).




End IndexDb.

(** ** The font size of src/bgen.py *)

Module Bgen.
Import Py.



End Bgen.

(** ** Vocabulary of the statements about what a handler leaves alone *)

Module FrameSpec.
Import Py Bot.

(** Every run of [m] takes a world to one that [R] relates to it. *)
Definition frames {A} (R : world -> world -> Prop) (m : M A) : Prop :=
  forall w, R w (snd (m w)).







End FrameSpec.

(** * Properties *)

(** ** Facts about the string primitives *)

Module PyStrFacts.
Import PyStr.

Ltac ascii_cases c :=
  destruct c as [[] [] [] [] [] [] [] []].

Lemma to_lower_is_hyphen (c : ascii) :
  Ascii.eqb (to_lower c) "-"%char = Ascii.eqb c "-"%char.
Proof. ascii_cases c; reflexivity. Qed.

Lemma sexists_smap (p : ascii -> bool) (f : ascii -> ascii) (s : string) :
  sexists p (smap f s) = sexists (fun c => p (f c)) s.
Proof. induction s as [|c r IH]; simpl; [reflexivity | now rewrite IH]. Qed.

Lemma sexists_ext (p q : ascii -> bool) (s : string) :
  (forall c, p c = q c) -> sexists p s = sexists q s.
Proof.
  intros E; induction s as [|c r IH]; simpl; [reflexivity | now rewrite E, IH].
Qed.

Lemma sexists_sfilter (p q : ascii -> bool) (s : string) :
  (forall c, p c = true -> q c = true) ->
  sexists p (sfilter q s) = sexists p s.
Proof.
  intros H; induction s as [|c r IH]; simpl; [reflexivity|].
  destruct (q c) eqn:Q; simpl; rewrite IH; [reflexivity|].
  destruct (p c) eqn:P; [|reflexivity].
  apply H in P; congruence.
Qed.

Lemma split_on_nonnil (sep : ascii) (s : string) : split_on sep s <> [].
Proof.
  destruct s as [|c r]; simpl; [discriminate|].
  destruct (Ascii.eqb c sep); [discriminate|].
  destruct (split_on sep r); discriminate.
Qed.

(** Splitting yields a single part exactly when the separator is absent. *)
Lemma split_on_single (sep : ascii) (s : string) :
  (length (split_on sep s) <? 2) = negb (sexists (fun c => Ascii.eqb c sep) s).
Proof.
  induction s as [|c r IH]; simpl; [reflexivity|].
  destruct (Ascii.eqb c sep); simpl.
  - pose proof (split_on_nonnil sep r) as N.
    destruct (split_on sep r); [congruence | reflexivity].
  - pose proof (split_on_nonnil sep r) as N.
    destruct (split_on sep r); [congruence | exact IH].
Qed.

Lemma filter_length_le {A} (p : A -> bool) (l : list A) :
  length (List.filter p l) <= length l.
Proof.
  induction l as [|a l IH]; simpl; [lia|].
  destruct (p a); simpl; lia.
Qed.

Lemma append_cons (x : ascii) (a b : string) :
  String x a ++ b = String x (a ++ b).
Proof. reflexivity. Qed.

Lemma append_nil_l (b : string) : EmptyString ++ b = b.
Proof. reflexivity. Qed.

Lemma append_assoc (a b c : string) : (a ++ b) ++ c = a ++ (b ++ c).
Proof.
  induction a as [|x a IH]; [reflexivity|].
  rewrite !append_cons. now f_equal.
Qed.

(** [prefix] and [contains] as decompositions *)
Lemma prefix_app (p s : string) :
  String.prefix p s = true <-> exists b, s = p ++ b.
Proof.
  revert s; induction p as [|c p IH]; intros s; simpl.
  - destruct s; split; eauto.
  - destruct s as [|d s]; simpl.
    + split; [discriminate | intros [b Hb]; discriminate].
    + destruct (ascii_dec c d) as [->|N].
      * split.
        -- intros H. apply IH in H as [b ->]. now exists b.
        -- intros [b Hb]. rewrite append_cons in Hb. inversion Hb.
           apply IH. now exists b.
      * split; [discriminate|].
        intros [b Hb]. rewrite append_cons in Hb. inversion Hb; congruence.
Qed.

Lemma contains_app (p s : string) :
  contains p s = true <-> exists a b, s = a ++ p ++ b.
Proof.
  induction s as [|c r IH]; cbn [contains].
  - rewrite orb_false_r. split.
    + intros H. apply prefix_app in H as [b Hb]. exists EmptyString, b. exact Hb.
    + intros [a [b Hb]]. apply prefix_app.
      destruct a; [eauto | discriminate].
  - split.
    + intros H. apply orb_true_iff in H as [H | H].
      * apply prefix_app in H as [b Hb]. exists EmptyString, b. exact Hb.
      * apply IH in H as [a [b Hb]]. exists (String c a), b.
        rewrite append_cons. now rewrite Hb.
    + intros [a [b Hb]]. apply orb_true_iff.
      destruct a as [|d a].
      * left. apply prefix_app. eauto.
      * right. apply IH. rewrite append_cons in Hb. inversion Hb. eauto.
Qed.

(** A text that contains [p ++ q] contains [q]. *)
Lemma contains_suffix_of_pattern (p q s : string) :
  contains (p ++ q) s = true -> contains q s = true.
Proof.
  intros H. apply contains_app in H as [a [b ->]]. apply contains_app.
  exists (a ++ p), b. now rewrite !append_assoc.
Qed.

Lemma sforall_app (f : ascii -> bool) (a b : string) :
  sforall f (a ++ b) = sforall f a && sforall f b.
Proof.
  induction a as [|x a IH]; [reflexivity|].
  rewrite append_cons. simpl. now rewrite IH, andb_assoc.
Qed.

Lemma sforall_contains (f : ascii -> bool) (p s : string) :
  contains p s = true -> sforall f s = true -> sforall f p = true.
Proof.
  intros H. apply contains_app in H as [a [b ->]].
  rewrite !sforall_app, !andb_true_iff. tauto.
Qed.

Lemma nonempty_contains (p s : string) :
  nonempty p = true -> contains p s = true -> nonempty s = true.
Proof.
  intros Hp H. apply contains_app in H as [a [b ->]].
  destruct a; [destruct p; [discriminate | reflexivity] | reflexivity].
Qed.

End PyStrFacts.

(** ** Facts about [strptime] and [strftime] *)

Module DatetimeFacts.
Import PyStr Re Py Datetime Extractor DateSpec PyStrFacts.
Local Open Scope N_scope.

Lemma is_digit_In (c : ascii) : is_digit c = true -> In c digits.
Proof. ascii_cases c; simpl; intros H; try discriminate H; tauto. Qed.

Ltac digit_cases H :=
  apply is_digit_In in H; simpl in H;
  repeat (destruct H as [<- | H]); [.. | contradiction].

Lemma digit_val_le (c : ascii) : is_digit c = true -> digit_val c <= 9.
Proof. intros H. digit_cases H; vm_compute; discriminate. Qed.

Lemma digit_char_val (c : ascii) :
  is_digit c = true -> digit_char (digit_val c) = c.
Proof. intros H. digit_cases H; reflexivity. Qed.

Lemma is_digit_digit_char (n : N) : n <= 9 -> is_digit (digit_char n) = true.
Proof.
  intros H.
  assert (E : In n [0; 1; 2; 3; 4; 5; 6; 7; 8; 9]).
  { simpl. lia. }
  simpl in E. repeat (destruct E as [<- | E]); try reflexivity. contradiction.
Qed.

Lemma pad2_two_digits (a b : ascii) :
  is_digit a = true -> is_digit b = true ->
  pad2 (10 * digit_val a + digit_val b) = String a (String b EmptyString).
Proof.
  intros Ha Hb. pose proof (digit_val_le a Ha). pose proof (digit_val_le b Hb).
  unfold pad2.
  replace ((10 * digit_val a + digit_val b) / 10) with (digit_val a)
    by (apply N.div_unique with (r := digit_val b); lia).
  replace ((10 * digit_val a + digit_val b) mod 10) with (digit_val b)
    by (apply N.mod_unique with (q := digit_val a); lia).
  now rewrite !digit_char_val.
Qed.

Lemma pad2_shape (n : N) :
  n < 100 ->
  exists a b, pad2 n = String a (String b EmptyString)
              /\ is_digit a = true /\ is_digit b = true.
Proof.
  intros H. unfold pad2. eexists; eexists; split; [reflexivity|].
  split; apply is_digit_digit_char.
  - apply N.lt_succ_r. apply N.Div0.div_lt_upper_bound. lia.
  - pose proof (N.mod_upper_bound n 10). lia.
Qed.

Lemma md4_table_ok : md4_table = true.
Proof. vm_compute. reflexivity. Qed.

Lemma md4_check_ok (m1 m2 d1 d2 : ascii) :
  is_digit m1 = true -> is_digit m2 = true ->
  is_digit d1 = true -> is_digit d2 = true ->
  md4_check m1 m2 d1 d2 = true.
Proof.
  intros H1 H2 H3 H4.
  apply is_digit_In in H1, H2, H3, H4.
  pose proof md4_table_ok as T. unfold md4_table in T.
  rewrite forallb_forall in T. specialize (T _ H1).
  rewrite forallb_forall in T. specialize (T _ H2).
  rewrite forallb_forall in T. specialize (T _ H3).
  rewrite forallb_forall in T. exact (T _ H4).
Qed.

Lemma days_in_month_le (y m : N) : days_in_month y m <= 31.
Proof.
  unfold days_in_month.
  destruct m as [|[[[[|[]|]|[[]|[]|]|]|[[[]|[]|]|[[]|[]|]|]|]
                  |[[[[]|[]|]|[[]|[]|]|]|[[[]|[]|]|[[]|[]|]|]|]|]];
    try destruct (is_leap y); lia.
Qed.

Lemma valid_date_fields (y m d : N) :
  valid_date y m d = true -> md_fields_ok m d = true.
Proof.
  unfold valid_date, md_fields_ok. pose proof (days_in_month_le y m).
  rewrite !andb_true_iff, !N.leb_le. lia.
Qed.

Lemma strptime_only_ValueError (f : year_directive) (s : string) (e : exn) :
  strptime f s = Raise e -> e = ValueError.
Proof.
  unfold strptime, make_date.
  destruct (take_n_digits _ s) as [[ys r]|]; [|congruence].
  destruct (match_md r) as [[[m d] [|? ?]]|]; try congruence.
  destruct (valid_date _ m d); congruence.
Qed.

Lemma strptime_valid (f : year_directive) (s : string) (d : date) :
  strptime f s = Ok d -> valid_date (year d) (month d) (day d) = true.
Proof.
  unfold strptime, make_date.
  destruct (take_n_digits _ s) as [[ys r]|]; [|congruence].
  destruct (match_md r) as [[[m dd] [|? ?]]|]; try congruence.
  destruct (valid_date _ m dd) eqn:V; [|congruence].
  intros [= <-]. exact V.
Qed.

Lemma format_build_date_eq (s : string) :
  format_build_date s
  = Ok (match parsed_render (fst (date_text s)) (snd (date_text s)) with
        | Some r => r
        | None => s
        end).
Proof.
  unfold format_build_date, parse_date, date_text, parsed_render.
  destruct (String.length s =? 8)%nat; [|destruct (String.length s =? 6)%nat];
    cbn [fst snd];
    match goal with
    | |- context [strptime ?f ?t] =>
        destruct (strptime f t) as [d|e] eqn:E; [reflexivity|];
        apply strptime_only_ValueError in E; subst e; reflexivity
    end.
Qed.

Lemma parsed_render_shape (f : year_directive) (t r : string) :
  parsed_render f t = Some r -> is_dmy r = true.
Proof.
  unfold parsed_render. destruct (strptime f t) as [d|e] eqn:E; [|discriminate].
  intros [= <-]. apply strptime_valid in E.
  pose proof (valid_date_fields _ _ _ E) as F.
  unfold md_fields_ok in F. rewrite !andb_true_iff, !N.leb_le in F.
  destruct (pad2_shape (day d)) as [a [b [Ed [Ha Hb]]]]; [lia|].
  destruct (pad2_shape (month d)) as [a' [b' [Em [Ha' Hb']]]]; [lia|].
  destruct (pad2_shape (year d mod 100)) as [a2 [b2 [Ey [Ha2 Hb2]]]].
  { pose proof (N.mod_upper_bound (year d) 100). lia. }
  unfold strftime_dmy. rewrite Ed, Em, Ey. cbv -[is_digit].
  now rewrite Ha, Hb, Ha', Hb', Ha2, Hb2.
Qed.

Lemma int_of_2 (a b : ascii) :
  int_of (String a (String b EmptyString)) = 10 * digit_val a + digit_val b.
Proof. unfold int_of. cbn. lia. Qed.

Lemma int_of_4_mod (a b c d : ascii) :
  is_digit c = true -> is_digit d = true ->
  int_of (String a (String b (String c (String d EmptyString)))) mod 100
  = 10 * digit_val c + digit_val d.
Proof.
  intros Hc Hd. pose proof (digit_val_le c Hc). pose proof (digit_val_le d Hd).
  unfold int_of. cbn. symmetry.
  apply N.mod_unique with (q := 10 * digit_val a + digit_val b); lia.
Qed.

Lemma year_of_Y2_mod (a b : ascii) :
  is_digit a = true -> is_digit b = true ->
  year_of Y2 (String a (String b EmptyString)) mod 100
  = 10 * digit_val a + digit_val b.
Proof.
  intros Ha Hb. pose proof (digit_val_le a Ha). pose proof (digit_val_le b Hb).
  unfold year_of. rewrite int_of_2.
  destruct (10 * digit_val a + digit_val b <=? 68); symmetry.
  - apply N.mod_unique with (q := 20); lia.
  - apply N.mod_unique with (q := 19); lia.
Qed.

(** On four digits the month and day are read two digits each, or the
    text is refused. *)
Lemma match_md_4 (y : N) (m1 m2 d1 d2 : ascii) :
  is_digit m1 = true -> is_digit m2 = true ->
  is_digit d1 = true -> is_digit d2 = true ->
  match match_md (String m1 (String m2 (String d1 (String d2 EmptyString)))) with
  | Some (m, d, EmptyString) => make_date y m d
  | _ => Raise ValueError
  end
  = make_date y (10 * digit_val m1 + digit_val m2) (10 * digit_val d1 + digit_val d2).
Proof.
  intros H1 H2 H3 H4. pose proof (md4_check_ok _ _ _ _ H1 H2 H3 H4) as C.
  unfold md4_check in C.
  destruct (match_md _) as [[[m d] [|? ?]]|].
  - rewrite !andb_true_iff, !N.eqb_eq in C. now destruct C as [[_ ->] ->].
  - unfold make_date.
    destruct (valid_date y _ _) eqn:V; [|reflexivity].
    apply valid_date_fields in V. rewrite V in C. discriminate.
  - unfold make_date.
    destruct (valid_date y _ _) eqn:V; [|reflexivity].
    apply valid_date_fields in V. rewrite V in C. discriminate.
Qed.

Ltac explode s H :=
  repeat (destruct s as [|? s]; [try (cbn in H; discriminate H; fail) |]);
  try (cbn in H; discriminate H).

Lemma parsed_render_8 (t : string) :
  String.length t = 8%nat -> sforall is_digit t = true ->
  parsed_render Y4 t = if ymd8_valid t then Some (ymd8_render t) else None.
Proof.
  intros L D.
  do 8 (destruct t as [|? t]; [discriminate L|]).
  destruct t; [|discriminate L]. clear L.
  cbn in D. rewrite !andb_true_iff in D.
  destruct D as (Hy1 & Hy2 & Hy3 & Hy4 & Hm1 & Hm2 & Hd1 & Hd2 & _).
  unfold parsed_render, strptime. cbn [take_n_digits].
  rewrite Hy1, Hy2, Hy3, Hy4. cbn [year_of].
  rewrite match_md_4 by assumption.
  unfold ymd8_valid, ymd8_render, sub. cbn [String.substring].
  rewrite !int_of_2. unfold make_date.
  destruct (valid_date _ _ _); [|reflexivity].
  unfold strftime_dmy. cbn [day month year].
  rewrite !pad2_two_digits by assumption.
  rewrite int_of_4_mod by assumption.
  rewrite pad2_two_digits by assumption. reflexivity.
Qed.

Lemma parsed_render_6 (t : string) :
  String.length t = 6%nat -> sforall is_digit t = true ->
  parsed_render Y2 t = if ymd6_valid t then Some (ymd6_render t) else None.
Proof.
  intros L D.
  do 6 (destruct t as [|? t]; [discriminate L|]).
  destruct t; [|discriminate L]. clear L.
  cbn in D. rewrite !andb_true_iff in D.
  destruct D as (Hy1 & Hy2 & Hm1 & Hm2 & Hd1 & Hd2 & _).
  unfold parsed_render, strptime. cbn [take_n_digits].
  rewrite Hy1, Hy2.
  rewrite match_md_4 by assumption.
  unfold ymd6_valid, ymd6_render, sub. cbn [String.substring].
  rewrite !int_of_2. unfold make_date.
  destruct (valid_date _ _ _); [|reflexivity].
  unfold strftime_dmy. cbn [day month year].
  rewrite !pad2_two_digits by assumption.
  rewrite year_of_Y2_mod by assumption.
  rewrite pad2_two_digits by assumption. reflexivity.
Qed.

End DatetimeFacts.

(** ** The scanning loop of [parse_filename] *)

Module ExtractorFacts.
Import PyStr Re Py Datetime Extractor DateSpec ExtractorSpec.
Import PyStrFacts DatetimeFacts.

Lemma take_drop_digits (s : string) : take_digits s ++ drop_digits s = s.
Proof.
  induction s as [|c r IH]; [reflexivity|]. simpl.
  destruct (is_digit c); [|reflexivity].
  rewrite append_cons. now f_equal.
Qed.

Lemma take_digits_digits (s : string) : sforall is_digit (take_digits s) = true.
Proof.
  induction s as [|c r IH]; [reflexivity|]. simpl.
  destruct (is_digit c) eqn:D; [|reflexivity]. simpl. now rewrite D.
Qed.

Lemma append_empty_r (s : string) : s ++ EmptyString = s.
Proof.
  induction s as [|c r IH]; [reflexivity|]. rewrite append_cons. now f_equal.
Qed.

Lemma rstrip_last (s a : string) (c : ascii) :
  rstrip s = a ++ String c EmptyString -> is_space c = false.
Proof.
  revert a; induction s as [|x r IH]; intros a; simpl.
  - destruct a; rewrite ?append_nil_l, ?append_cons; discriminate.
  - destruct (rstrip r) as [|y r'] eqn:R.
    + destruct (is_space x) eqn:X.
      * destruct a; rewrite ?append_nil_l, ?append_cons; discriminate.
      * destruct a as [|a0 a]; rewrite ?append_nil_l, ?append_cons;
          intros H; inversion H; subst; [exact X|].
        destruct a; rewrite ?append_nil_l, ?append_cons in *; discriminate.
    + destruct a as [|a0 a]; rewrite ?append_nil_l, ?append_cons;
        intros H; inversion H; subst.
      now apply (IH a).
Qed.

(** A stripped text accepted by the date pattern is a run of six digits or
    more: the newline that [$] tolerates cannot end it. *)
Lemma match_date_strip (x : string) :
  match_date (strip x) = true ->
  sforall is_digit (strip x) = true /\ 6 <= String.length (strip x).
Proof.
  unfold match_date. intros H. apply andb_true_iff in H as [L D].
  apply Nat.leb_le in L.
  pose proof (take_drop_digits (strip x)) as E.
  pose proof (take_digits_digits (strip x)) as T.
  destruct (drop_digits (strip x)) as [|c [|? ?]] eqn:R; simpl in D.
  - rewrite append_empty_r in E. rewrite <- E. auto.
  - unfold strip in E. symmetry in E. apply rstrip_last in E.
    apply Ascii.eqb_eq in D. subst c. discriminate.
  - discriminate.
Qed.

Lemma scan_parts_app (st : scan) (l1 l2 : list string) :
  scan_parts st (l1 ++ l2)%list = scan_parts (scan_parts st l1) l2.
Proof. apply fold_left_app. Qed.

(** Induction over the iterations of the loop *)
Lemma scan_parts_invariant (P : scan -> Prop) (st : scan) (ps : list string) :
  P st -> (forall st' p, P st' -> P (scan_part st' p)) -> P (scan_parts st ps).
Proof.
  intros H0 Hstep. revert st H0.
  induction ps as [|p ps IH]; intros st H0; simpl; [exact H0|].
  apply IH. now apply Hstep.
Qed.

Lemma scan_part_date (st : scan) (p : string) :
  date_invariant st -> date_invariant (scan_part st p).
Proof.
  unfold date_invariant, scan_part. intros I s.
  destruct (negb (nonempty (clean_part p))); [apply I|].
  destruct (match_date (clean_part p)) eqn:M.
  - destruct (s_build_date st) eqn:B; [rewrite B; apply I|].
    cbn. intros [= <-]. now apply match_date_strip.
  - destruct (_ && version_like _); [exact (I s)|].
    destruct (status_loop _ _ _ _ _). exact (I s).
Qed.

Lemma found_date_digits (f s : string) :
  found_date f = Some s -> sforall is_digit s = true /\ 6 <= String.length s.
Proof.
  unfold found_date. revert s.
  apply (scan_parts_invariant date_invariant); [|apply scan_part_date].
  intros s; discriminate.
Qed.

Lemma substring_length (a n : nat) (s : string) :
  a + n <= String.length s -> String.length (String.substring a n s) = n.
Proof.
  revert a n; induction s as [|c r IH]; intros a n H; simpl in H.
  - assert (a = 0) by lia. assert (n = 0) by lia. subst. reflexivity.
  - destruct a as [|a]; simpl.
    + destruct n as [|n]; [reflexivity|]. simpl. f_equal. apply IH. lia.
    + apply IH. lia.
Qed.

Lemma substring_forall (f : ascii -> bool) (a n : nat) (s : string) :
  sforall f s = true -> sforall f (String.substring a n s) = true.
Proof.
  revert a n; induction s as [|c r IH]; intros a n H.
  - destruct a, n; reflexivity.
  - simpl in H. apply andb_true_iff in H as [Hc Hr].
    destruct a as [|a]; simpl.
    + destruct n as [|n]; [reflexivity|]. simpl. rewrite Hc. now apply IH.
    + now apply IH.
Qed.

(** What the formatting step stores for a digit run *)
Lemma format_build_date_rule (s : string) :
  sforall is_digit s = true ->
  exists r, format_build_date s = Ok r /\ date_rule s r.
Proof.
  intros D. rewrite format_build_date_eq. eexists; split; [reflexivity|].
  unfold date_rule, date_text. repeat split.
  - destruct (parsed_render _ _) as [r|] eqn:E; [right | now left].
    now apply parsed_render_shape in E.
  - intros L. rewrite L. cbn [Nat.eqb fst snd].
    rewrite parsed_render_8 by assumption. now destruct (ymd8_valid s).
  - intros L. rewrite L. cbn [Nat.eqb fst snd].
    rewrite parsed_render_6 by assumption. now destruct (ymd6_valid s).
  - intros L.
    destruct (String.length s =? 8) eqn:E8; [apply Nat.eqb_eq in E8; lia|].
    destruct (String.length s =? 6) eqn:E6; [apply Nat.eqb_eq in E6; lia|].
    apply Nat.ltb_lt in L as L'. rewrite L'. cbn [fst snd].
    rewrite parsed_render_8.
    + now destruct (ymd8_valid _).
    + unfold last_n. apply substring_length. lia.
    + unfold last_n. now apply substring_forall.
Qed.

Lemma format_build_date_total (s : string) :
  exists r, format_build_date s = Ok r.
Proof. rewrite format_build_date_eq. eauto. Qed.

Lemma process_build_date_total (o : option string) :
  exists o', process_build_date o = Ok o'.
Proof.
  destruct o as [s|]; simpl; [|eauto].
  destruct (nonempty s); [|eauto].
  destruct (format_build_date_total s) as [r ->]. eauto.
Qed.

Lemma prio_le_refl (a : option nat) : prio_le a a.
Proof. destruct a; simpl; auto. Qed.

Lemma prio_le_trans (a b c : option nat) :
  prio_le a b -> prio_le b c -> prio_le a c.
Proof. destruct a, b, c; simpl; try tauto; lia. Qed.

Lemma nth_error_middle (pre : list string) (k : string) (ks : list string) :
  nth_error (pre ++ k :: ks)%list (length pre) = Some k.
Proof. induction pre as [|x pre IH]; [reflexivity | exact IH]. Qed.

(** The status loop keeps the invariant, never loses priority, and ends at
    least as high as every keyword it finds in the segment. *)
Lemma status_loop_spec (kws pre : list string) (cp : string)
    (found : option nat) (st : option string) :
  status_invariant (pre ++ kws)%list found st ->
  status_invariant (pre ++ kws)%list
    (fst (status_loop kws (length pre) cp found st))
    (snd (status_loop kws (length pre) cp found st))
  /\ prio_le (fst (status_loop kws (length pre) cp found st)) found
  /\ (forall m k, nth_error kws m = Some k -> contains k cp = true ->
       prio_le (fst (status_loop kws (length pre) cp found st))
               (Some (length pre + m))).
Proof.
  revert pre found st. induction kws as [|k ks IH]; intros pre found st I.
  - simpl. split; [exact I|]. split; [apply prio_le_refl|].
    intros [|m] k' H; discriminate H.
  - assert (EL : (pre ++ k :: ks = (pre ++ [k]) ++ ks)%list)
      by now rewrite <- app_assoc.
    assert (LL : length (pre ++ [k])%list = S (length pre))
      by (rewrite length_app; simpl; lia).
    cbn [status_loop].
    destruct (contains k cp) eqn:C; [destruct (higher_priority (length pre) found) eqn:H|].
    + specialize (IH (pre ++ [k])%list (Some (length pre)) (Some k)).
      rewrite LL, <- EL in IH.
      destruct IH as (I1 & I2 & I3).
      { intros j [= <-]. exists k. split; [apply nth_error_middle | reflexivity]. }
      split; [exact I1|]. split.
      * eapply prio_le_trans; [exact I2|].
        destruct found as [j0|]; simpl in *; [apply Nat.ltb_lt in H; lia | constructor].
      * intros [|m] k' Hk Hc.
        -- now rewrite Nat.add_0_r.
        -- rewrite <- Nat.add_succ_comm. now apply (I3 m k').
    + specialize (IH (pre ++ [k])%list found st).
      rewrite LL, <- EL in IH.
      destruct (IH I) as (I1 & I2 & I3).
      split; [exact I1|]. split; [exact I2|].
      intros [|m] k' Hk Hc.
      * eapply prio_le_trans; [exact I2|].
        destruct found as [j0|]; simpl in *; [|discriminate H].
        apply Nat.ltb_ge in H. lia.
      * rewrite <- Nat.add_succ_comm. now apply (I3 m k').
    + specialize (IH (pre ++ [k])%list found st).
      rewrite LL, <- EL in IH.
      destruct (IH I) as (I1 & I2 & I3).
      split; [exact I1|]. split; [exact I2|].
      intros [|m] k' Hk Hc.
      * simpl in Hk. injection Hk as <-. congruence.
      * rewrite <- Nat.add_succ_comm. now apply (I3 m k').
Qed.

Lemma variant_loop_set (kws : list string) (cp k : string) :
  variant_loop kws cp (Some k) = Some k.
Proof.
  induction kws as [|x ks IH]; simpl; [reflexivity|].
  now destruct (contains x cp).
Qed.

Lemma variant_loop_unset (kws : list string) (cp : string) :
  match variant_loop kws cp None with
  | Some k => In k kws /\ contains k cp = true
  | None => has_keyword kws cp = false
  end.
Proof.
  induction kws as [|x ks IH]; simpl; [reflexivity|].
  destruct (contains x cp) eqn:C; simpl; [auto|].
  destruct (variant_loop ks cp None); tauto.
Qed.

Lemma scan_le_refl (st : scan) : scan_le st st.
Proof. unfold scan_le. repeat split; auto using prio_le_refl. Qed.

Lemma scan_le_trans (a b c : scan) : scan_le a b -> scan_le b c -> scan_le a c.
Proof.
  unfold scan_le. intros (A1 & A2 & A3 & A4) (B1 & B2 & B3 & B4).
  repeat split; eauto using prio_le_trans.
Qed.

Lemma status_invariant_nil_prefix (found : option nat) (st : option string) :
  status_invariant status_priority found st ->
  status_invariant ([] ++ status_priority)%list found st.
Proof. exact (fun H => H). Qed.

Ltac scan_fields :=
  cbn [s_version s_build_date s_status s_variant found_status_priority
       device_candidates].

(** One iteration keeps [scan_wf] and moves forward in [scan_le]. *)
Lemma scan_part_step (st : scan) (p : string) :
  scan_wf st -> scan_wf (scan_part st p) /\ scan_le st (scan_part st p).
Proof.
  intros W. pose proof W as [Ws Wv]. unfold scan_part.
  destruct (negb (nonempty (clean_part p))); [split; [exact W | apply scan_le_refl]|].
  destruct (match_date (clean_part p)).
  { destruct (s_build_date st); [split; [exact W | apply scan_le_refl]|].
    split; [split; scan_fields; assumption|].
    unfold scan_le; scan_fields. repeat split; auto using prio_le_refl. }
  destruct (_ && version_like _) eqn:G.
  { split; [split; scan_fields; assumption|].
    unfold scan_le; scan_fields. repeat split; auto using prio_le_refl.
    intros v Hv. rewrite Hv in G. discriminate G. }
  destruct (status_loop_spec status_priority [] (clean_part p)
              (found_status_priority st) (s_status st) Ws) as (S1 & S2 & _).
  cbn [length app] in S1, S2.
  destruct (status_loop _ _ _ _ _) as [found' stat'].
  cbn [fst snd] in S1, S2.
  split.
  - split; scan_fields; [exact S1|].
    intros k Hk. destruct (s_variant st) as [k0|] eqn:V.
    + rewrite variant_loop_set in Hk. injection Hk as <-. now apply Wv.
    + pose proof (variant_loop_unset variant_keywords (clean_part p)) as U.
      rewrite Hk in U. tauto.
  - unfold scan_le; scan_fields. repeat split; auto.
    + intros k Hk. rewrite Hk. apply variant_loop_set.
    + intros c Hc. destruct (is_device_candidate _); [|exact Hc].
      apply in_or_app. now left.
Qed.

Lemma scan_parts_step (ps : list string) (st : scan) :
  scan_wf st -> scan_wf (scan_parts st ps) /\ scan_le st (scan_parts st ps).
Proof.
  revert st; induction ps as [|p ps IH]; intros st W; simpl.
  - split; [exact W | apply scan_le_refl].
  - destruct (scan_part_step st p W) as [W1 L1].
    destruct (IH _ W1) as [W2 L2].
    split; [exact W2 | eapply scan_le_trans; eauto].
Qed.

Lemma initial_scan_wf (c : string) : scan_wf (initial_scan c).
Proof. split; cbn; [intros j H | intros k H]; discriminate H. Qed.

(** What the iteration on a segment that reaches the keyword tests leaves *)
Lemma scan_part_reached (st : scan) (p : string) :
  scan_wf st ->
  nonempty (clean_part p) = true ->
  match_date (clean_part p) = false ->
  s_version st <> None \/ version_like (clean_part p) = false ->
  (forall m k, nth_error status_priority m = Some k ->
               contains k (clean_part p) = true ->
               prio_le (found_status_priority (scan_part st p)) (Some m))
  /\ (has_keyword variant_keywords (clean_part p) = true ->
      s_variant (scan_part st p) <> None)
  /\ (is_device_candidate (clean_part p) = true ->
      In (clean_part p) (device_candidates (scan_part st p))).
Proof.
  intros [Ws Wv] N D V. unfold scan_part. rewrite N, D. cbn [negb].
  assert (G : (match s_version st with None => true | Some _ => false end)
              && version_like (clean_part p) = false).
  { destruct V as [V | V]; [destruct (s_version st); [reflexivity | congruence]|].
    rewrite V. apply andb_false_r. }
  rewrite G.
  destruct (status_loop_spec status_priority [] (clean_part p)
              (found_status_priority st) (s_status st) Ws) as (_ & _ & S3).
  cbn [length app] in S3.
  destruct (status_loop _ _ _ _ _) as [found' stat']. cbn [fst snd] in S3.
  scan_fields. split; [exact S3|]. split.
  - intros K. destruct (s_variant st) as [k0|].
    + rewrite variant_loop_set. discriminate.
    + pose proof (variant_loop_unset variant_keywords (clean_part p)) as U.
      destruct (variant_loop _ _ None); [discriminate|].
      congruence.
  - intros C. rewrite C. apply in_or_app. right. now left.
Qed.

End ExtractorFacts.

(** ** Properties of [parse_filename] *)

Module ExtractorProps.
Import PyStr Re Py Datetime Extractor DateSpec ExtractorSpec.
Import PyStrFacts DatetimeFacts ExtractorFacts.

Lemma clean_has_hyphen (f : string) :
  sexists (fun c => Ascii.eqb c "-"%char) (clean f) = has_hyphen f.
Proof.
  unfold clean, lower, has_hyphen. rewrite sexists_smap.
  rewrite (sexists_ext _ (fun c => Ascii.eqb c "-"%char))
    by apply to_lower_is_hyphen.
  apply sexists_sfilter. intros c H. apply Ascii.eqb_eq in H. now subst c.
Qed.

Lemma parts_single (f : string) :
  (length (parts f) <? 2) = negb (has_hyphen f).
Proof. unfold parts. now rewrite split_on_single, clean_has_hyphen. Qed.

(** The record [parse_filename] builds, field by field *)
Lemma parse_filename_record (today f : string) (r : FilenameRecord) :
  parse_filename today f = Ok (Some r) ->
  exists bd,
    process_build_date (found_date f) = Ok bd
    /\ r = MkRecord
        (Some match s_version (final_scan f) with
              | Some v => v
              | None => or_default (alternative_version (parts f)) "Unknown"
              end)
        (Some (or_default bd today))
        (Some (capitalize (or_default (s_status (final_scan f)) "unofficial")))
        (Some (upper (or_default (s_variant (final_scan f)) "standard")))
        (select_device (device_candidates (final_scan f)))
        (if nonempty (strip (hd EmptyString (parts f)))
         then Some (title_words (strip (hd EmptyString (parts f))))
         else None).
Proof.
  unfold parse_filename. fold (parts f).
  destruct (length (parts f) <? 2); [discriminate|].
  change (scan_parts (initial_scan (clean f)) (tl (parts f)))
    with (final_scan f).
  change (s_build_date (final_scan f)) with (found_date f).
  destruct (process_build_date (found_date f)) as [bd|e]; cbn [bind];
    [|discriminate].
  intros [= <-]. exists bd. split; reflexivity.
Qed.

Lemma parse_filename_returns (today f : string) :
  (has_hyphen f = false /\ parse_filename today f = Ok None)
  \/ (has_hyphen f = true /\ exists r, parse_filename today f = Ok (Some r)).
Proof.
  unfold parse_filename. fold (parts f). rewrite parts_single.
  destruct (has_hyphen f); cbn [negb]; [right | left; auto].
  split; [reflexivity|].
  destruct (process_build_date_total
              (s_build_date (scan_parts (initial_scan (clean f)) (tl (parts f)))))
    as [bd ->].
  cbn [bind]. eauto.
Qed.

(** C1. For the filename Axion-v6.2-cancunf-OFFICIAL-GAPPS-20240115.zip,
    [parse_filename] returns the record with rom_name Axion, version 6.2,
    device_name cancunf, status Official, variant_type GAPPS and build_date
    15/01/24, whatever the current date. *)
Theorem parse_filename_axion (today : string) :
  parse_filename today "Axion-v6.2-cancunf-OFFICIAL-GAPPS-20240115.zip"
  = Ok (Some {| version := Some "6.2";
                build_date := Some "15/01/24";
                status := Some "Official";
                variant_type := Some "GAPPS";
                device_name := Some "cancunf";
                rom_name := Some "Axion" |}).
Proof. reflexivity. Qed.

(** C2, as the specification states it, fails: the filename rom- has a
    single non-empty segment, and [parse_filename] returns a record. *)
Lemma trailing_hyphen_is_parsed :
  length (nonempty_segments "rom-") < 2
  /\ parse_filename "06/11/26" "rom-"
     = Ok (Some {| version := Some "Unknown";
                   build_date := Some "06/11/26";
                   status := Some "Unofficial";
                   variant_type := Some "STANDARD";
                   device_name := None;
                   rom_name := Some "Rom" |}).
Proof. split; [vm_compute; lia | reflexivity]. Qed.

(** C2, amended. [parse_filename] returns null exactly when splitting the
    normalized filename on the hyphen yields fewer than two segments, empty
    segments counted, which is exactly when the filename holds no hyphen;
    otherwise, and so whenever at least two segments are non-empty, it
    returns a record. *)
Theorem parse_filename_null_iff_no_hyphen (today f : string) :
  is_ascii_str f = true ->
  (parse_filename today f = Ok None <-> length (parts f) < 2)
  /\ (length (parts f) < 2 <-> has_hyphen f = false)
  /\ (2 <= length (parts f) -> exists r, parse_filename today f = Ok (Some r))
  /\ (2 <= length (nonempty_segments f) ->
      exists r, parse_filename today f = Ok (Some r)).
Proof.
  intros _.
  assert (P : length (parts f) < 2 <-> has_hyphen f = false).
  { rewrite <- Nat.ltb_lt, parts_single. now destruct (has_hyphen f). }
  assert (R : 2 <= length (parts f) ->
              exists r, parse_filename today f = Ok (Some r)).
  { intros L. destruct (parse_filename_returns today f) as [[H _] | [_ H]];
      [apply P in H; lia | exact H]. }
  split; [|split; [exact P | split; [exact R|]]].
  - destruct (parse_filename_returns today f) as [[H E] | [H [r E]]].
    + rewrite E. split; [intros _; now apply P | reflexivity].
    + rewrite E. split; [intros [=]|]. intros L. apply P in L. congruence.
  - intros L. apply R. unfold nonempty_segments in L.
    pose proof (filter_length_le nonempty (parts f)). lia.
Qed.

Lemma parse_filename_null_iff_no_hyphen_witness :
  (parse_filename "06/11/26" "rom.zip" = Ok None
   <-> length (parts "rom.zip") < 2)
  /\ (length (parts "rom.zip") < 2 <-> has_hyphen "rom.zip" = false)
  /\ (2 <= length (parts "rom.zip") ->
      exists r, parse_filename "06/11/26" "rom.zip" = Ok (Some r))
  /\ (2 <= length (nonempty_segments "rom.zip") ->
      exists r, parse_filename "06/11/26" "rom.zip" = Ok (Some r)).
Proof.
  apply (parse_filename_null_iff_no_hyphen "06/11/26" "rom.zip"). reflexivity.
Defined.

(** The loop variables at the end, for a segment that reaches the
    keyword tests *)
Lemma is_scanned_true (st : scan) (p : string) :
  is_scanned st p = true ->
  nonempty (clean_part p) = true
  /\ match_date (clean_part p) = false
  /\ (s_version st <> None \/ version_like (clean_part p) = false).
Proof.
  unfold is_scanned, taken_as_version. intros H.
  apply andb_true_iff in H as [H T]. apply andb_true_iff in H as [N D].
  apply negb_true_iff in D. apply negb_true_iff in T.
  split; [exact N|]. split; [exact D|].
  destruct (s_version st); [left; discriminate | right; exact T].
Qed.

Lemma segment_scanned (f : string) (pre : list string) (p : string)
    (post : list string) :
  tl (parts f) = (pre ++ p :: post)%list ->
  is_scanned (scan_before f pre) p = true ->
  scan_wf (final_scan f)
  /\ (forall m k, nth_error status_priority m = Some k ->
                  contains k (clean_part p) = true ->
                  prio_le (found_status_priority (final_scan f)) (Some m))
  /\ (has_keyword variant_keywords (clean_part p) = true ->
      s_variant (final_scan f) <> None)
  /\ (is_device_candidate (clean_part p) = true ->
      In (clean_part p) (device_candidates (final_scan f))).
Proof.
  intros Hd Hs. apply is_scanned_true in Hs as (N & D & V).
  unfold final_scan. rewrite Hd. unfold scan_before in V.
  rewrite scan_parts_app. cbn [scan_parts fold_left].
  fold (scan_parts (scan_part (scan_parts (initial_scan (clean f)) pre) p) post).
  destruct (scan_parts_step pre _ (initial_scan_wf (clean f))) as [W1 L1].
  destruct (scan_part_step _ p W1) as [W2 _].
  destruct (scan_parts_step post _ W2) as [W3 (Lf & _ & Lv & Lc)].
  destruct (scan_part_reached _ p W1 N D V) as (R1 & R2 & R3).
  split; [exact W3|]. split; [|split].
  - intros m k Hk Hc. eapply prio_le_trans; [exact Lf | now apply (R1 m k)].
  - intros K. specialize (R2 K).
    destruct (s_variant (scan_part _ p)) as [k|] eqn:E; [|congruence].
    rewrite (Lv k eq_refl). discriminate.
  - intros C. apply Lc. now apply R3.
Qed.

(** A segment that holds a keyword is not a digit run. *)
Lemma keyword_segment_not_date (k p : string) :
  sforall is_digit k = false ->
  contains k (clean_part p) = true -> match_date (clean_part p) = false.
Proof.
  intros K C. destruct (match_date (clean_part p)) eqn:M; [|reflexivity].
  apply match_date_strip in M as [M _].
  rewrite (sforall_contains is_digit _ _ C M) in K. discriminate.
Qed.

(** C3, as the specification states it, fails: in
    rom-v12unofficial-20240101.zip the second segment holds both keywords
    and is taken as the version, and the status stays the default. *)
Lemma unofficial_in_version_segment :
  In "v12unofficial" (tl (parts "rom-v12unofficial-20240101.zip"))
  /\ contains "unofficial" "v12unofficial" = true
  /\ contains "official" "v12unofficial" = true
  /\ parse_filename "06/11/26" "rom-v12unofficial-20240101.zip"
     = Ok (Some {| version := Some "12unofficial";
                   build_date := Some "01/01/24";
                   status := Some "Unofficial";
                   variant_type := Some "STANDARD";
                   device_name := None;
                   rom_name := Some "Rom" |}).
Proof. repeat split; try reflexivity. simpl. tauto. Qed.

(** C3, amended. When the text before the first dot of some segment after
    the first holds the keyword unofficial (and so official too), and the
    loop does not take that segment as the version (when it comes to the
    segment a version is set already, by the dotted search or by an earlier
    segment, or the segment does not look like a version), the status of
    the record is Official, wherever the segment stands. *)
Theorem unofficial_segment_is_official (today f : string)
    (r : FilenameRecord) (pre : list string) (p : string)
    (post : list string) :
  is_ascii_str f = true ->
  parse_filename today f = Ok (Some r) ->
  tl (parts f) = (pre ++ p :: post)%list ->
  contains "unofficial" (clean_part p) = true ->
  taken_as_version (scan_before f pre) p = false ->
  status r = Some "Official".
Proof.
  intros _ E Hd C V.
  assert (R : is_scanned (scan_before f pre) p = true).
  { unfold is_scanned. rewrite V.
    assert (N : nonempty (clean_part p) = true)
      by now apply (nonempty_contains "unofficial").
    assert (D : match_date (clean_part p) = false)
      by now apply (keyword_segment_not_date "unofficial").
    now rewrite N, D. }
  destruct (segment_scanned f pre p post Hd R) as ([Ws _] & S & _).
  specialize (S 0 "official" eq_refl
                (contains_suffix_of_pattern "un" "official" _ C)).
  apply parse_filename_record in E as [bd [_ ->]]. cbn [status].
  destruct (found_status_priority (final_scan f)) as [j|] eqn:F;
    [|contradiction].
  simpl in S. assert (j = 0) by lia. subst j.
  destruct (Ws 0 eq_refl) as [k [Hk ->]]. injection Hk as <-. reflexivity.
Qed.

Lemma unofficial_segment_is_official_witness :
  status {| version := Some "1";
            build_date := Some "06/11/26";
            status := Some "Official";
            variant_type := Some "STANDARD";
            device_name := None;
            rom_name := Some "Rom" |} = Some "Official".
Proof.
  apply (unofficial_segment_is_official "06/11/26"
           "rom-v1-v2unofficial.zip" _ ["v1"] "v2unofficial.zip" []).
  - reflexivity.
  - reflexivity.
  - reflexivity.
  - reflexivity.
  - reflexivity.
Defined.

Lemma select_device_nonempty (c : string) (cands : list string) :
  In c cands -> select_device cands <> None.
Proof.
  destruct cands as [|x l]; [contradiction|]. intros _.
  unfold select_device.
  destruct (find match_codename (x :: l)) as [s|]; cbn [truthy negb].
  - destruct (nonempty s); discriminate.
  - discriminate.
Qed.

(** C4, as the specification states it, fails: in rom-v2betagapps.zip the
    second segment is taken as the version; the status keyword beta and the
    variant keyword gapps inside it are not looked for, and both fields
    stay at their defaults. *)
Lemma version_segment_not_scanned :
  In "v2betagapps.zip" (tl (parts "rom-v2betagapps.zip"))
  /\ contains "beta" (clean_part "v2betagapps.zip") = true
  /\ contains "gapps" (clean_part "v2betagapps.zip") = true
  /\ parse_filename "06/11/26" "rom-v2betagapps.zip"
     = Ok (Some {| version := Some "2betagapps";
                   build_date := Some "06/11/26";
                   status := Some "Unofficial";
                   variant_type := Some "STANDARD";
                   device_name := None;
                   rom_name := Some "Rom" |}).
Proof. repeat split; try reflexivity. simpl. tauto. Qed.

Lemma unscanned_segment (st : scan) (p : string) :
  is_scanned st p = false ->
  s_status (scan_part st p) = s_status st
  /\ found_status_priority (scan_part st p) = found_status_priority st
  /\ s_variant (scan_part st p) = s_variant st
  /\ device_candidates (scan_part st p) = device_candidates st.
Proof.
  unfold is_scanned, taken_as_version, scan_part. intros H.
  destruct (nonempty (clean_part p)); cbn [negb andb] in *; [|repeat split].
  destruct (match_date (clean_part p)); cbn [negb andb] in *.
  - destruct (s_build_date st); repeat split.
  - apply negb_false_iff in H. rewrite H. repeat split.
Qed.

(** C4, amended. Every segment after the first that is not empty, is not a
    run of six digits or more, and is not taken as the version (a version
    is set when the loop comes to it, or it does not look like one) goes
    through the three keyword tests, none excluding another: each status
    keyword inside it bounds the priority of the status returned, a variant
    keyword inside it makes the variant one of the keywords, and a segment
    of codename shape free of keywords is among the device candidates, so
    that a device name is returned.  Every other segment, the one taken as
    the build date or as the version among them, ends its iteration before
    those tests: the status, its priority, the variant and the candidates
    are after the iteration what they were before it. *)
Theorem reached_segment_gets_every_test (today f : string)
    (r : FilenameRecord) (pre : list string) (p : string)
    (post : list string) :
  is_ascii_str f = true ->
  parse_filename today f = Ok (Some r) ->
  tl (parts f) = (pre ++ p :: post)%list ->
  (is_scanned (scan_before f pre) p = true ->
   (forall m k, nth_error status_priority m = Some k ->
                contains k (clean_part p) = true ->
                exists j k', j <= m /\ nth_error status_priority j = Some k'
                             /\ status r = Some (capitalize k'))
   /\ (has_keyword variant_keywords (clean_part p) = true ->
       exists k, In k variant_keywords /\ variant_type r = Some (upper k))
   /\ (is_device_candidate (clean_part p) = true ->
       In (clean_part p) (device_candidates (final_scan f))
       /\ device_name r <> None))
  /\ (is_scanned (scan_before f pre) p = false ->
      s_status (scan_before f (pre ++ [p])) = s_status (scan_before f pre)
      /\ found_status_priority (scan_before f (pre ++ [p]))
         = found_status_priority (scan_before f pre)
      /\ s_variant (scan_before f (pre ++ [p])) = s_variant (scan_before f pre)
      /\ device_candidates (scan_before f (pre ++ [p]))
         = device_candidates (scan_before f pre)).
Proof.
  intros _ E Hd. split.
  - intros R.
    destruct (segment_scanned f pre p post Hd R) as ([Ws Wv] & S & Vr & Dv).
    apply parse_filename_record in E as [bd [_ ->]].
    cbn [status variant_type device_name]. split; [|split].
    + intros m k Hk Hc. specialize (S m k Hk Hc).
      destruct (found_status_priority (final_scan f)) as [j|] eqn:F;
        [|contradiction].
      destruct (Ws j eq_refl) as [k' [Hk' ->]].
      exists j, k'. simpl in S. auto.
    + intros K. specialize (Vr K).
      destruct (s_variant (final_scan f)) as [k|] eqn:Ev; [|congruence].
      exists k. split; [now apply Wv | reflexivity].
    + intros C. specialize (Dv C). split; [exact Dv|].
      now apply (select_device_nonempty (clean_part p)).
  - intros U. unfold scan_before. rewrite scan_parts_app.
    cbn [scan_parts fold_left]. now apply unscanned_segment.
Qed.

Lemma reached_segment_gets_every_test_witness :
  let f := "rom-v1-v2betagapps.zip" in
  let r := {| version := Some "1";
              build_date := Some "06/11/26";
              status := Some "Beta";
              variant_type := Some "GAPPS";
              device_name := None;
              rom_name := Some "Rom" |} in
  let p := "v2betagapps.zip" in
  (is_scanned (scan_before f ["v1"]) p = true ->
   (forall m k, nth_error status_priority m = Some k ->
                contains k (clean_part p) = true ->
                exists j k', j <= m /\ nth_error status_priority j = Some k'
                             /\ status r = Some (capitalize k'))
   /\ (has_keyword variant_keywords (clean_part p) = true ->
       exists k, In k variant_keywords /\ variant_type r = Some (upper k))
   /\ (is_device_candidate (clean_part p) = true ->
       In (clean_part p) (device_candidates (final_scan f))
       /\ device_name r <> None))
  /\ (is_scanned (scan_before f ["v1"]) p = false ->
      s_status (scan_before f (["v1"] ++ [p])) = s_status (scan_before f ["v1"])
      /\ found_status_priority (scan_before f (["v1"] ++ [p]))
         = found_status_priority (scan_before f ["v1"])
      /\ s_variant (scan_before f (["v1"] ++ [p]))
         = s_variant (scan_before f ["v1"])
      /\ device_candidates (scan_before f (["v1"] ++ [p]))
         = device_candidates (scan_before f ["v1"])).
Proof.
  apply (reached_segment_gets_every_test "06/11/26" "rom-v1-v2betagapps.zip"
           _ ["v1"] "v2betagapps.zip" []).
  - reflexivity.
  - reflexivity.
  - reflexivity.
Defined.

Example build_date_8_digits :
  format_build_date "20240115" = Ok "15/01/24".
Proof. reflexivity. Qed.

Example build_date_6_digits :
  format_build_date "240115" = Ok "15/01/24".
Proof. reflexivity. Qed.

Example build_date_longer_run :
  format_build_date "9920240115" = Ok "15/01/24".
Proof. reflexivity. Qed.

Example build_date_no_such_month :
  format_build_date "20241301" = Ok "20241301".
Proof. reflexivity. Qed.

Example build_date_longer_run_kept_whole :
  format_build_date "9920241301" = Ok "9920241301".
Proof. reflexivity. Qed.

(** A run of seven digits is read with a one-digit month or day. *)
Example build_date_7_digits :
  format_build_date "2024115" = Ok "05/11/24".
Proof. reflexivity. Qed.

Lemma build_date_unchanged (st : scan) (q : string) :
  match_date (clean_part q) = false ->
  s_build_date (scan_part st q) = s_build_date st.
Proof.
  intros D. unfold scan_part. rewrite D.
  destruct (negb (nonempty (clean_part q))); [reflexivity|].
  destruct (_ && version_like _); [reflexivity|].
  now destruct (status_loop _ _ _ _ _).
Qed.

Lemma build_date_unchanged_all (l : list string) (st : scan) :
  Forall (fun q => match_date (clean_part q) = false) l ->
  s_build_date (scan_parts st l) = s_build_date st.
Proof.
  revert st. induction l as [|q l IH]; intros st H; [reflexivity|].
  inversion H as [|? ? Hq Hl]; subst. cbn [scan_parts fold_left].
  fold (scan_parts (scan_part st q) l).
  rewrite (IH _ Hl). now apply build_date_unchanged.
Qed.

Lemma build_date_locked (l : list string) (st : scan) (s : string) :
  s_build_date st = Some s -> s_build_date (scan_parts st l) = Some s.
Proof.
  revert st. induction l as [|q l IH]; intros st H; [exact H|].
  cbn [scan_parts fold_left]. fold (scan_parts (scan_part st q) l).
  apply IH. unfold scan_part.
  destruct (negb (nonempty (clean_part q))); [exact H|].
  destruct (match_date (clean_part q)); [now rewrite H|].
  destruct (_ && version_like _); [exact H|].
  now destruct (status_loop _ _ _ _ _).
Qed.

(** The first segment that is a run of six digits or more is the build
    date the loop keeps. *)
Lemma first_date_segment (f : string) (pre : list string) (p : string)
    (post : list string) :
  tl (parts f) = (pre ++ p :: post)%list ->
  Forall (fun q => match_date (clean_part q) = false) pre ->
  match_date (clean_part p) = true ->
  found_date f = Some (clean_part p).
Proof.
  intros Hd Hpre Hp.
  change (found_date f) with (s_build_date (final_scan f)).
  unfold final_scan. rewrite Hd, scan_parts_app.
  cbn [scan_parts fold_left].
  fold (scan_parts (scan_part (scan_parts (initial_scan (clean f)) pre) p) post).
  apply build_date_locked.
  pose proof (build_date_unchanged_all pre (initial_scan (clean f)) Hpre) as B.
  cbn [initial_scan s_build_date] in B.
  unfold clean_part in Hp.
  destruct (match_date_strip _ Hp) as [_ L]. fold (clean_part p) in Hp, L.
  unfold scan_part. rewrite Hp, B.
  assert (N : nonempty (clean_part p) = true)
    by (destruct (clean_part p); [simpl in L; lia | reflexivity]).
  now rewrite N.
Qed.

Lemma no_date_segment (f : string) :
  Forall (fun q => match_date (clean_part q) = false) (tl (parts f)) ->
  found_date f = None.
Proof.
  intros H. change (found_date f) with (s_build_date (final_scan f)).
  unfold final_scan. now rewrite build_date_unchanged_all.
Qed.

Lemma has_hyphen_of_segments (f : string) (pre : list string) (p : string)
    (post : list string) :
  tl (parts f) = (pre ++ p :: post)%list -> has_hyphen f = true.
Proof.
  intros Hd. pose proof (parts_single f) as S.
  destruct (parts f) as [|x [|y l]]; cbn [tl] in Hd.
  - destruct pre; discriminate Hd.
  - destruct pre; discriminate Hd.
  - cbn in S. now destruct (has_hyphen f).
Qed.

(** C5. [parse_filename] never raises, and a filename with a hyphen gets
    its record.  The first segment after the first that is a run of six
    digits or more is the build date: in the record returned it follows
    [date_rule], by which a run of eight digits is read as YYYYMMDD, one of
    six as YYMMDD, a longer one by its last eight characters as YYYYMMDD; a
    date that exists is stored as dd/mm/yy, made of the very digits of the
    run, and otherwise the run is stored as it is.  With no such segment the
    build date of the record is the current date. *)
Theorem build_date_postprocessing (today f : string) :
  is_ascii_str f = true ->
  (exists o, parse_filename today f = Ok o)
  /\ (forall pre p post,
        tl (parts f) = (pre ++ p :: post)%list ->
        Forall (fun q => match_date (clean_part q) = false) pre ->
        match_date (clean_part p) = true ->
        sforall is_digit (clean_part p) = true
        /\ 6 <= String.length (clean_part p)
        /\ exists r t, parse_filename today f = Ok (Some r)
                       /\ build_date r = Some t
                       /\ date_rule (clean_part p) t)
  /\ (has_hyphen f = true ->
      Forall (fun q => match_date (clean_part q) = false) (tl (parts f)) ->
      exists r, parse_filename today f = Ok (Some r)
                /\ build_date r = Some today).
Proof.
  intros _. split; [|split].
  - destruct (parse_filename_returns today f) as [[_ E] | [_ [r E]]]; eauto.
  - intros pre p post Hd Hpre Hp.
    pose proof (first_date_segment f pre p post Hd Hpre Hp) as F.
    destruct (found_date_digits f _ F) as [D L].
    split; [exact D|]. split; [exact L|].
    destruct (parse_filename_returns today f) as [[H _] | [_ [r E]]].
    { rewrite (has_hyphen_of_segments f pre p post Hd) in H. discriminate H. }
    exists r. pose proof E as E'.
    apply parse_filename_record in E' as [bd [B ->]]. cbn [build_date].
    destruct (format_build_date_rule _ D) as [t [Et Rt]].
    rewrite F in B. cbn [process_build_date] in B.
    assert (N : nonempty (clean_part p) = true)
      by (destruct (clean_part p); [simpl in L; lia | reflexivity]).
    rewrite N, Et in B. injection B as <-.
    exists t. split; [exact E|]. split; [reflexivity | exact Rt].
  - intros H Hall.
    destruct (parse_filename_returns today f) as [[H' _] | [_ [r E]]];
      [congruence|].
    exists r. split; [exact E|].
    apply parse_filename_record in E as [bd [B ->]]. cbn [build_date].
    rewrite (no_date_segment f Hall) in B. cbn [process_build_date] in B.
    injection B as <-. reflexivity.
Qed.

Lemma build_date_postprocessing_witness :
  sforall is_digit (clean_part "20241301.zip") = true
  /\ 6 <= String.length (clean_part "20241301.zip")
  /\ exists r t, parse_filename "06/11/26" "rom-v1-20241301.zip" = Ok (Some r)
                 /\ build_date r = Some t
                 /\ date_rule (clean_part "20241301.zip") t.
Proof.
  refine (proj1 (proj2 (build_date_postprocessing "06/11/26"
                          "rom-v1-20241301.zip" _))
            ["v1"] "20241301.zip" [] _ _ _).
  - reflexivity.
  - reflexivity.
  - repeat constructor.
  - reflexivity.
Defined.

Lemma match_codename_nonempty (c : string) :
  match_codename c = true -> nonempty c = true.
Proof. destruct c; [discriminate | reflexivity]. Qed.

Lemma find_first_match (l1 : list string) (c : string) (l2 : list string) :
  Forall (fun x => match_codename x = false) l1 ->
  match_codename c = true ->
  find match_codename (l1 ++ c :: l2) = Some c.
Proof.
  intros H M. induction H as [|x l Hx _ IH]; cbn [app find].
  - now rewrite M.
  - now rewrite Hx.
Qed.

Lemma find_no_match (l : list string) :
  Forall (fun x => match_codename x = false) l ->
  find match_codename l = None.
Proof.
  intros H. induction H as [|x l Hx _ IH]; cbn [find]; [reflexivity|].
  now rewrite Hx.
Qed.

(** C6. The selection [select_device] that ends [parse_filename], over
    any list [cands] of candidates: an empty list gives no device name;
    the first candidate that passes the codename pattern again is the
    device name, whatever comes before or after it; when no candidate
    passes, the device name is the last candidate.  The device name of the
    record [parse_filename] returns is this selection applied to the
    candidates its loop has collected. *)
Theorem device_name_selection (cands : list string) :
  (cands = [] -> select_device cands = None)
  /\ (forall l1 c l2,
        cands = (l1 ++ c :: l2)%list ->
        Forall (fun x => match_codename x = false) l1 ->
        match_codename c = true ->
        select_device cands = Some c)
  /\ (cands <> [] ->
      Forall (fun x => match_codename x = false) cands ->
      select_device cands = Some (List.last cands EmptyString))
  /\ (forall today f r,
        is_ascii_str f = true ->
        parse_filename today f = Ok (Some r) ->
        cands = device_candidates (final_scan f) ->
        device_name r = select_device cands).
Proof.
  split; [|split; [|split]].
  - intros ->. reflexivity.
  - intros l1 c l2 -> H M. unfold select_device.
    rewrite (find_first_match l1 c l2 H M). cbn [truthy].
    rewrite (match_codename_nonempty c M).
    now destruct l1.
  - intros N H. unfold select_device. rewrite (find_no_match cands H).
    destruct cands; [now contradiction N | reflexivity].
  - intros today f r _ E ->.
    apply parse_filename_record in E as [bd [_ ->]]. reflexivity.
Qed.

Lemma device_name_selection_witness :
  select_device [""; "x"] = Some "x"
  /\ select_device ["ab"; "vayu"; "x"; "lmi"] = Some "vayu"
  /\ device_name {| version := Some "Unknown";
                    build_date := Some "06/11/26";
                    status := Some "Unofficial";
                    variant_type := Some "STANDARD";
                    device_name := Some "vayu";
                    rom_name := Some "Rom" |}
     = select_device ["vayu"; "cancunf"].
Proof.
  split; [|split].
  - apply (proj1 (proj2 (proj2 (device_name_selection [""; "x"])))).
    + discriminate.
    + repeat constructor.
  - apply (proj1 (proj2 (device_name_selection ["ab"; "vayu"; "x"; "lmi"]))
             ["ab"] "vayu" ["x"; "lmi"]).
    + reflexivity.
    + repeat constructor.
    + reflexivity.
  - apply (proj2 (proj2 (proj2 (device_name_selection ["vayu"; "cancunf"])))
             "06/11/26" "rom-vayu-cancunf.zip").
    + reflexivity.
    + reflexivity.
    + reflexivity.
Defined.


End ExtractorProps.

(** ** [parse_filename] of src/index.py against that of src/bot.py *)

Module IndexProps.
Import PyStr Re Py Datetime Extractor ExtractorSpec.
Import PyStrFacts ExtractorFacts.







(** C10 fails on the code: for the filename of C1 the function of
    src/index.py returns the raw digit run as build date, the status and the
    variant in lower case and no device name, while that of src/bot.py
    returns the finished record. *)
Theorem index_parse_filename_differs (today : string) :
  IndexPy.parse_filename "Axion-v6.2-cancunf-OFFICIAL-GAPPS-20240115.zip"
  = Ok (Some {| version := Some "6.2";
                build_date := Some "20240115";
                status := Some "official";
                variant_type := Some "gapps";
                device_name := None;
                rom_name := Some "Axion" |})
  /\ Extractor.parse_filename today
       "Axion-v6.2-cancunf-OFFICIAL-GAPPS-20240115.zip"
     = Ok (Some {| version := Some "6.2";
                   build_date := Some "15/01/24";
                   status := Some "Official";
                   variant_type := Some "GAPPS";
                   device_name := Some "cancunf";
                   rom_name := Some "Axion" |})
  /\ IndexPy.parse_filename "Axion-v6.2-cancunf-OFFICIAL-GAPPS-20240115.zip"
     <> Extractor.parse_filename today
          "Axion-v6.2-cancunf-OFFICIAL-GAPPS-20240115.zip".
Proof.
  split; [reflexivity|]. split; [reflexivity|].
  change (IndexPy.parse_filename
            "Axion-v6.2-cancunf-OFFICIAL-GAPPS-20240115.zip")
    with (@Ok (option FilenameRecord)
            (Some {| version := Some "6.2";
                     build_date := Some "20240115";
                     status := Some "official";
                     variant_type := Some "gapps";
                     device_name := None;
                     rom_name := Some "Axion" |})).
  change (Extractor.parse_filename today
            "Axion-v6.2-cancunf-OFFICIAL-GAPPS-20240115.zip")
    with (@Ok (option FilenameRecord)
            (Some {| version := Some "6.2";
                     build_date := Some "15/01/24";
                     status := Some "Official";
                     variant_type := Some "GAPPS";
                     device_name := Some "cancunf";
                     rom_name := Some "Axion" |})).
  intros H. injection H as _ H _ _. discriminate H.
Qed.

End IndexProps.

(** ** The response router *)

Module RouterProps.
Import PyStr Py Bot BotSpec Scenario.

Lemma others_of_app (h : nat) (l1 l2 : list (builder * nat)) :
  others_of h (l1 ++ l2)%list = (others_of h l1 ++ others_of h l2)%list.
Proof. apply List.filter_app. Qed.

Lemma others_of_absent (h : nat) (l : list (builder * nat)) (b : builder) :
  ~ In (b, h) (others_of h l).
Proof.
  unfold others_of. intros H. apply List.filter_In in H as [_ H].
  cbn in H. now rewrite Nat.eqb_refl in H.
Qed.

(** Removing the callback under both builders removes all it has. *)
Lemma remove_both (h : nat) (l : list (builder * nat)) :
  List.filter (fun e => negb (is_registration h CallbackQuery e))
    (List.filter (fun e => negb (is_registration h NewMessage e)) l)
  = others_of h l.
Proof.
  induction l as [|[b k] l IH]; [reflexivity|].
  unfold others_of, is_registration in *. cbn [List.filter fst snd].
  destruct b, (Nat.eqb k h) eqn:E; cbn [builder_eqb andb negb List.filter fst snd];
    rewrite ?E; cbn [andb negb]; now rewrite IH.
Qed.

Lemma registered_then_removed (h : nat) (l : list (builder * nat)) :
  List.filter (fun e => negb (is_registration h CallbackQuery e))
    (List.filter (fun e => negb (is_registration h NewMessage e))
       ((l ++ [(NewMessage, h)]) ++ [(CallbackQuery, h)]))%list
  = others_of h l.
Proof.
  rewrite remove_both, !others_of_app. unfold others_of at 2 3.
  cbn [List.filter snd]. rewrite Nat.eqb_refl. cbn [negb].
  now rewrite !app_nil_r.
Qed.

(** What a call of the router leaves, on every outcome *)
Lemma router_run (l : label) (w : world) :
  (forall b, ~ In (b, next_handler w)
                  (event_builders (snd (get_response_or_callback l w))))
  /\ event_builders (snd (get_response_or_callback l w))
     = others_of (next_handler w) (event_builders w)
  /\ fst (get_response_or_callback l w)
     = router_outcome (fst (next_any (script w))).
Proof.
  assert (E : event_builders (snd (get_response_or_callback l w))
              = others_of (next_handler w) (event_builders w)
              /\ fst (get_response_or_callback l w)
                 = router_outcome (fst (next_any (script w)))).
  { unfold get_response_or_callback, bind, gets, modify, add_event_handler,
      remove_event_handler, try_finally, try_except, wait_done, try_edit_press,
      try_except, answer_press, edit_press, raise, ret, modify.
    cbn [set_next_handler set_builders event_builders script next_handler].
    destruct (script w) as [|[t|[d [ea|] [ee|]]|e] s];
      cbn [next_any fst snd router_outcome answer_fails edit_fails data];
      try (destruct ea); try (destruct ee); try (destruct e);
      cbn; rewrite registered_then_removed; split; reflexivity. }
  destruct E as [E1 E2]. split; [|split; assumption].
  intros b. rewrite E1. apply others_of_absent.
Qed.


(** C9. Whatever the user does next and whatever the transport raises, a
    call of [get_response_or_callback] ends with no registration of its
    callback left under either builder: the registrations of the client are
    those it had before, less any of that callback.  The call returns the
    text or the press received and lets the exception of a wait or of
    [answer] through; a failed edit of the prompt is passed over. *)
Theorem router_leaves_no_listener (l : label) (w : world) :
  (forall b, ~ In (b, next_handler w)
                  (event_builders (snd (get_response_or_callback l w))))
  /\ event_builders (snd (get_response_or_callback l w))
     = others_of (next_handler w) (event_builders w)
  /\ fst (get_response_or_callback l w)
     = router_outcome (fst (next_any (script w))).
Proof. exact (router_run l w). Qed.

Lemma router_leaves_no_listener_witness :
  (forall b, ~ In (b, next_handler (idle [pressed "skip_support"]))
                  (event_builders
                     (snd (get_response_or_callback L_support
                             (idle [pressed "skip_support"])))))
  /\ event_builders
       (snd (get_response_or_callback L_support (idle [pressed "skip_support"])))
     = others_of (next_handler (idle [pressed "skip_support"]))
         (event_builders (idle [pressed "skip_support"]))
  /\ fst (get_response_or_callback L_support (idle [pressed "skip_support"]))
     = router_outcome (fst (next_any (script (idle [pressed "skip_support"])))).
Proof.
  exact (router_leaves_no_listener L_support (idle [pressed "skip_support"])).
Defined.

(** When the callback is new to the client, the registrations are after the
    call what they were before it. *)
Lemma router_restores_registrations (l : label) (w : world) :
  (forall b h, In (b, h) (event_builders w) -> h < next_handler w) ->
  event_builders (snd (get_response_or_callback l w)) = event_builders w.
Proof.
  intros F. destruct (router_run l w) as (_ & -> & _).
  unfold others_of. apply forallb_filter_id. apply forallb_forall.
  intros [b h] H. apply F in H. cbn. apply negb_true_iff, Nat.eqb_neq. lia.
Qed.

End RouterProps.

(** ** A program logic for the steps of the wizard *)

Module WizardLogic.
Import PyStr Py Bot BotSpec.
Local Open Scope wizard_scope.

Lemma quiet_nil : quiet [].
Proof. intros l []. Qed.

Lemma quiet_cons (e : event) (new : list event) :
  (forall l, e = timeout_at l -> is_preview l = true) ->
  quiet new -> quiet (e :: new).
Proof. intros He Hn l [H | H]; [apply He; now symmetry | now apply Hn]. Qed.

Lemma quiet_app (a b : list event) : quiet a -> quiet b -> quiet (a ++ b)%list.
Proof.
  intros Ha Hb l H. apply in_app_or in H as [H | H]; [now apply Ha | now apply Hb].
Qed.

Lemma quiet_waitless (evs : list event) :
  (forall l a, ~ In (Awaited l a) evs) -> quiet evs.
Proof. intros H l Hl. now apply H in Hl. Qed.

Lemma calm_refl (w : world) : calm (log w) w.
Proof. exists []. split; [reflexivity | apply quiet_nil]. Qed.

Lemma calm_settled {A} (log0 : list event) (out : outcome A) (w : world) :
  calm log0 w -> out <> Diverged -> settled log0 out w.
Proof. intros C D. destruct out as [a | [] | |]; simpl; auto. Qed.

Lemma settled_not_diverged {A} (log0 : list event) (out : outcome A) (w : world) :
  settled log0 out w -> out <> Diverged.
Proof. intros S ->. exact S. Qed.

(** *** Structural rules *)

Lemma good_weaken {A} (c c' : bool) (s s' : A -> bool) (n n' : nat) (m : M A) :
  good c s n m ->
  (c' = true -> c = true) -> (forall a, s' a = true -> s a = true) -> n' <= n ->
  good c' s' n' m.
Proof.
  intros G Hc Hs Hn log0 w L C.
  destruct (G log0 w ltac:(lia) C) as (G1 & G2 & G3).
  split; [|split; [exact G2 | intros a E Sa; apply (G3 a E); auto]].
  destruct c', c; auto.
  - now specialize (Hc eq_refl).
  - destruct G1 as [G1 D]. now apply calm_settled.
Qed.

Lemma good_waitless {A} (c : bool) (n : nat) (m : M A) :
  waitless m -> good c unmarked n m.
Proof.
  intros W log0 w L [new [E Q]]. destruct (W w) as (D & S & evs & El & Hev).
  assert (C : calm log0 (snd (m w))).
  { exists (evs ++ new)%list. split.
    - now rewrite El, E, app_assoc.
    - apply quiet_app; [now apply quiet_waitless | exact Q]. }
  split; [|split; [rewrite S; lia | discriminate]].
  destruct c; [auto | now apply calm_settled].
Qed.

Lemma good_bind {A B} (c : bool) (s : B -> bool) (n : nat)
    (m : M A) (k : A -> M B) :
  good c unmarked n m -> (forall a, good c s n (k a)) -> good c s n (bind m k).
Proof.
  intros Gm Gk log0 w L C. unfold bind.
  destruct (Gm log0 w L C) as (M1 & M2 & _).
  destruct (m w) as [[a | e | |] w1]; cbn [fst snd] in *.
  - assert (C1 : calm log0 w1).
    { destruct c; [tauto | exact M1]. }
    destruct (Gk a log0 w1 ltac:(lia) C1) as (K1 & K2 & K3).
    split; [exact K1|]. split; [lia|].
    intros b E Sb. specialize (K3 b E Sb). lia.
  - split; [|split; [exact M2 | discriminate]].
    destruct c; [split; [tauto | discriminate] | exact M1].
  - split; [|split; [exact M2 | discriminate]].
    destruct c; [split; [tauto | discriminate] | exact M1].
  - exfalso. destruct c; [now destruct M1 | exact M1].
Qed.

(** After a step that has taken an answer, what follows runs on a shorter
    script. *)
Lemma good_bind_marked {A B} (c : bool) (n : nat) (m : M A) (k : A -> M B) :
  good c marked n m ->
  (forall a n', S n' <= n -> good c unmarked n' (k a)) ->
  good c marked n (bind m k).
Proof.
  intros Gm Gk log0 w L C. unfold bind.
  destruct (Gm log0 w L C) as (M1 & M2 & M3).
  destruct (m w) as [[a | e | |] w1]; cbn [fst snd] in *.
  - specialize (M3 a eq_refl eq_refl).
    assert (C1 : calm log0 w1).
    { destruct c; [tauto | exact M1]. }
    destruct (Gk a (length (script w1)) ltac:(lia) log0 w1 ltac:(lia) C1)
      as (K1 & K2 & _).
    split; [exact K1|]. split; [lia|]. intros; lia.
  - split; [|split; [exact M2 | discriminate]].
    destruct c; [split; [tauto | discriminate] | exact M1].
  - split; [|split; [exact M2 | discriminate]].
    destruct c; [split; [tauto | discriminate] | exact M1].
  - exfalso. destruct c; [now destruct M1 | exact M1].
Qed.

Lemma good_try_except {A} (c : bool) (s : A -> bool) (n : nat)
    (m : M A) (h : exn -> option (M A)) :
  good true s n m ->
  (forall e k, h e = Some k ->
     good c unmarked n k /\ forall w a, fst (k w) = Normal a -> s a = false) ->
  good c s n (try_except m h).
Proof.
  intros Gm Gh log0 w L C. unfold try_except.
  destruct (Gm log0 w L C) as ([M1 D] & M2 & M3).
  destruct (m w) as [[a | e | |] w1] eqn:Em; cbn [fst snd] in *.
  - split; [destruct c; [auto | exact M1]|]. split; [exact M2 | exact M3].
  - destruct (h e) as [k|] eqn:Hh.
    + destruct (Gh e k Hh) as [Gk Sk].
      destruct (Gk log0 w1 ltac:(lia) M1) as (K1 & K2 & _).
      split; [exact K1|]. split; [lia|].
      intros a E Sa. rewrite (Sk w1 a E) in Sa. discriminate.
    + cbn [fst snd].
      split; [destruct c; [auto | now apply calm_settled]|].
      split; [exact M2 | discriminate].
  - split; [destruct c; [auto | exact M1]|]. split; [exact M2 | discriminate].
  - contradiction.
Qed.

Lemma good_try_finally {A} (c : bool) (s : A -> bool) (n : nat)
    (m : M A) (fin : M unit) :
  good c s n m -> neutral fin -> good c s n (try_finally m fin).
Proof.
  intros Gm N log0 w L C. unfold try_finally.
  destruct (Gm log0 w L C) as (M1 & M2 & M3).
  destruct (m w) as [out w1]. cbn [fst snd] in *.
  destruct (N w1) as (F1 & F2 & F3).
  destruct (fin w1) as [[[] | | |] w2]; cbn [fst snd] in *; try discriminate F1.
  rewrite F2.
  assert (T : forall log0', calm log0' w1 -> calm log0' w2).
  { intros ? [new H]. exists new. now rewrite F3. }
  split; [|split; [exact M2 | exact M3]].
  destruct c; [split; [apply T|]; tauto|].
  destruct out as [a | [] | |]; cbn in *; auto.
  destruct M1 as [M1 | (l & new & P & E & Q)]; [left; auto|].
  right. exists l, new. now rewrite F3.
Qed.

Lemma bind_run {A B} (m : M A) (k : A -> M B) (w : world) :
  bind m k w
  = match m w with
    | (Normal a, w') => k a w'
    | (Exc e, w') => (Exc e, w')
    | (Returned, w') => (Returned, w')
    | (Diverged, w') => (Diverged, w')
    end.
Proof. reflexivity. Qed.

(** A handler that raises again what it caught changes nothing. *)
Lemma good_try_except_reraise {A} (c : bool) (s : A -> bool) (n : nat)
    (m : M A) (h : exn -> option (M A)) :
  (forall e k, h e = Some k -> k = raise e) ->
  good c s n m -> good c s n (try_except m h).
Proof.
  intros R G log0 w L C.
  assert (E : try_except m h w = m w).
  { unfold try_except. destruct (m w) as [[a | e | |] w1]; try reflexivity.
    destruct (h e) as [k|] eqn:Hh; [|reflexivity]. now rewrite (R e k Hh). }
  rewrite E. now apply G.
Qed.

(** *** Steps that wait for nothing *)

Lemma waitless_ret {A} (a : A) : waitless (ret a).
Proof.
  intros w. split; [discriminate|]. split; [reflexivity|].
  exists []. split; [reflexivity | intros l x []].
Qed.

Lemma waitless_raise {A} (e : exn) : waitless (@raise A e).
Proof.
  intros w. split; [discriminate|]. split; [reflexivity|].
  exists []. split; [reflexivity | intros l x []].
Qed.

Lemma waitless_return {A} : waitless (@return_ A).
Proof.
  intros w. split; [discriminate|]. split; [reflexivity|].
  exists []. split; [reflexivity | intros l x []].
Qed.

Lemma waitless_gets {A} (f : world -> A) : waitless (gets f).
Proof.
  intros w. split; [discriminate|]. split; [reflexivity|].
  exists []. split; [reflexivity | intros l x []].
Qed.

Lemma waitless_lift {A} (r : result A) : waitless (lift r).
Proof. destruct r; [apply waitless_ret | apply waitless_raise]. Qed.

(** A change of the world that keeps the script and the log *)
Lemma waitless_modify (f : world -> world) :
  (forall w, script (f w) = script w) -> (forall w, log (f w) = log w) ->
  waitless (modify f).
Proof.
  intros Hs Hl w. split; [discriminate|]. split; [apply Hs|].
  exists []. split; [apply Hl | intros l x []].
Qed.

Lemma waitless_add_log (e : event) :
  (forall l a, e <> Awaited l a) -> waitless (modify (add_log e)).
Proof.
  intros He w. split; [discriminate|]. split; [reflexivity|].
  exists [e]. split; [reflexivity|].
  intros l a [H | []]. now apply (He l a).
Qed.

Lemma waitless_answer_press (p : press) : waitless (answer_press p).
Proof.
  unfold answer_press. destruct (answer_fails p);
    [apply waitless_raise | apply waitless_ret].
Qed.

Lemma waitless_edit_press (p : press) (m : msg) : waitless (edit_press p m).
Proof.
  unfold edit_press. destruct (edit_fails p); [apply waitless_raise|].
  apply waitless_add_log. discriminate.
Qed.

(** *** The waits *)

Lemma next_text_length (s : list answer) :
  length (snd (next_text s)) <= length s
  /\ (forall t, fst (next_text s) = inl t -> length (snd (next_text s)) < length s).
Proof.
  induction s as [|[t | p | e] s [IH1 IH2]]; cbn.
  - split; [lia | discriminate].
  - split; [lia | intros; lia].
  - split; [lia|]. intros t E. specialize (IH2 t E). lia.
  - split; [lia | discriminate].
Qed.

Lemma next_press_length (s : list answer) :
  length (snd (next_press s)) <= length s
  /\ (forall p, fst (next_press s) = inl p -> length (snd (next_press s)) < length s).
Proof.
  induction s as [|[t | p | e] s [IH1 IH2]]; cbn.
  - split; [lia | discriminate].
  - split; [lia|]. intros p E. specialize (IH2 p E). lia.
  - split; [lia | intros; lia].
  - split; [lia | discriminate].
Qed.

(** The world after a wait of step [l] that got [a] and left [r] *)
Lemma awaited_calm (log0 : list event) (w : world) (l : label) (a : answer)
    (r : list answer) :
  calm log0 w ->
  (a = Fails TimeoutError -> is_preview l = true) ->
  calm log0 (add_log (Awaited l a) (set_script r w)).
Proof.
  intros [new [E Q]] H. exists (Awaited l a :: new). split.
  - cbn. now rewrite E.
  - apply quiet_cons; [|exact Q]. intros l' [= -> ->]. now apply H.
Qed.

Lemma awaited_timed_out (log0 : list event) (w : world) (l : label)
    (r : list answer) :
  calm log0 w -> is_preview l = false ->
  timed_out log0 (add_log (timeout_at l) (set_script r w)).
Proof.
  intros [new [E Q]] H. exists l, new. split; [exact H|]. split; [|exact Q].
  cbn. now rewrite E.
Qed.

Lemma awaited_failure (log0 : list event) (w : world) (l : label) (e : exn)
    (r : list answer) (A : Type) :
  calm log0 w ->
  @settled A log0 (Exc e) (add_log (Awaited l (Fails e)) (set_script r w)).
Proof.
  intros C. destruct (is_preview l) eqn:P.
  - apply calm_settled; [|discriminate]. now apply awaited_calm.
  - destruct e; cbn;
      try (apply awaited_calm; [exact C | discriminate]).
    right. now apply awaited_timed_out.
Qed.

Lemma good_get_response (l : label) (n : nat) :
  good false marked n (get_response l).
Proof.
  intros log0 w L C. unfold get_response.
  destruct (next_text_length (script w)) as [N1 N2].
  destruct (next_text (script w)) as [[t | e] r]; cbn [fst snd] in *.
  - split; [apply awaited_calm; [exact C | discriminate]|].
    split; [exact N1|]. intros a _ _. now apply (N2 t).
  - split; [now apply awaited_failure|]. split; [exact N1 | discriminate].
Qed.

Lemma good_wait_event (l : label) (n : nat) :
  good (is_preview l) marked n (wait_event l).
Proof.
  intros log0 w L C. unfold wait_event.
  destruct (next_press_length (script w)) as [N1 N2].
  destruct (next_press (script w)) as [[p | e] r]; cbn [fst snd] in *.
  - split; [|split; [exact N1 | intros a _ _; now apply (N2 p)]].
    assert (Cw : calm log0 (add_log (Awaited l (Button p)) (set_script r w)))
      by (apply awaited_calm; [exact C | discriminate]).
    destruct (is_preview l); [split; [exact Cw | discriminate] | exact Cw].
  - split; [|split; [exact N1 | discriminate]].
    destruct (is_preview l) eqn:P.
    + split; [|discriminate]. apply awaited_calm; [exact C | now rewrite P].
    + now apply awaited_failure.
Qed.

Lemma good_wait_done (l : label) (n : nat) :
  good false marked n (wait_done l).
Proof.
  intros log0 w L C. unfold wait_done.
  destruct (script w) as [|[t | p | e] r] eqn:S;
    cbn [next_any fst snd length script add_log set_script].
  - split; [now apply awaited_failure|]. split; [lia | discriminate].
  - split; [apply awaited_calm; [exact C | discriminate]|].
    split; [lia | intros; lia].
  - split; [apply awaited_calm; [exact C | discriminate]|].
    split; [lia | intros; lia].
  - split; [now apply awaited_failure|]. split; [lia | discriminate].
Qed.

(** *** Closure of the waitless steps *)

Lemma no_wait_app (a b : list event) :
  (forall l x, ~ In (Awaited l x) a) -> (forall l x, ~ In (Awaited l x) b) ->
  forall l x, ~ In (Awaited l x) (a ++ b)%list.
Proof. intros Ha Hb l x H. apply in_app_or in H as [H | H]; firstorder. Qed.

Lemma waitless_bind {A B} (m : M A) (k : A -> M B) :
  waitless m -> (forall a, waitless (k a)) -> waitless (bind m k).
Proof.
  intros Wm Wk w. unfold bind.
  destruct (Wm w) as (D & S & evs & El & Hev).
  destruct (m w) as [[a | e | |] w1]; cbn [fst snd] in *.
  - destruct (Wk a w1) as (D' & S' & evs' & El' & Hev').
    split; [exact D'|]. split; [congruence|].
    exists (evs' ++ evs)%list. split; [now rewrite El', El, app_assoc|].
    now apply no_wait_app.
  - split; [discriminate|]. split; [exact S|]. now exists evs.
  - split; [discriminate|]. split; [exact S|]. now exists evs.
  - contradiction.
Qed.

Lemma waitless_try_except {A} (m : M A) (h : exn -> option (M A)) :
  waitless m -> (forall e k, h e = Some k -> waitless k) ->
  waitless (try_except m h).
Proof.
  intros Wm Wh w. unfold try_except.
  destruct (Wm w) as (D & S & evs & El & Hev).
  destruct (m w) as [[a | e | |] w1]; cbn [fst snd] in *.
  - split; [discriminate|]. split; [exact S|]. now exists evs.
  - destruct (h e) as [k|] eqn:Hh.
    + destruct (Wh e k Hh w1) as (D' & S' & evs' & El' & Hev').
      split; [exact D'|]. split; [congruence|].
      exists (evs' ++ evs)%list. split; [now rewrite El', El, app_assoc|].
      now apply no_wait_app.
    + split; [discriminate|]. split; [exact S|]. now exists evs.
  - split; [discriminate|]. split; [exact S|]. now exists evs.
  - contradiction.
Qed.

Lemma waitless_send (E : environment) (m : msg) : waitless (send E m).
Proof.
  unfold send. destruct (send_fails E m); [apply waitless_raise|].
  apply waitless_add_log. discriminate.
Qed.

Lemma waitless_reply (E : environment) (m : msg) : waitless (reply E m).
Proof.
  unfold reply. destruct (send_fails E m); [apply waitless_raise|].
  apply waitless_add_log. discriminate.
Qed.

Lemma waitless_edit_message (E : environment) (m : msg) :
  waitless (edit_message E m).
Proof.
  unfold edit_message. destruct (edit_fails_on E m); [apply waitless_raise|].
  apply waitless_add_log. discriminate.
Qed.

Lemma waitless_draft_modify (ev : new_message) (f : post_data -> post_data) :
  waitless (draft_modify ev f).
Proof. apply waitless_modify; reflexivity. Qed.

Lemma waitless_draft_get (ev : new_message) : waitless (draft_get ev).
Proof. apply waitless_gets. Qed.

Lemma waitless_db_modify (f : database -> database) : waitless (db_modify f).
Proof. apply waitless_modify; reflexivity. Qed.

Ltac handler_cases H :=
  repeat match type of H with
         | context [if ?b then _ else _] => destruct b
         end;
  try discriminate H; injection H as <-.

Ltac waitless_go :=
  repeat first
    [ apply waitless_ret | apply waitless_raise | apply waitless_return
    | apply waitless_gets | apply waitless_lift
    | apply waitless_send | apply waitless_reply | apply waitless_edit_message
    | apply waitless_answer_press | apply waitless_edit_press
    | apply waitless_draft_modify | apply waitless_draft_get
    | apply waitless_db_modify
    | apply waitless_add_log; discriminate
    | apply waitless_modify; reflexivity
    | apply waitless_bind; [| intros; cbv beta]
    | apply waitless_try_except;
      [| let e := fresh "e" in let k := fresh "k" in let H := fresh "H" in
         intros e k H; handler_cases H]
    | match goal with
      | |- waitless (if ?b then _ else _) => destruct b
      | |- waitless (match ?x with _ => _ end) => destruct x
      end ].

Lemma waitless_try_edit_press (p : press) (m : msg) :
  waitless (try_edit_press p m).
Proof. unfold try_edit_press. waitless_go. Qed.

Lemma waitless_make_banners (E : environment) (d : post_data) :
  waitless (make_banners E d).
Proof. unfold make_banners. waitless_go. Qed.

Lemma waitless_update_preview_message (E : environment) (pv : preview) :
  waitless (update_preview_message E pv).
Proof. unfold update_preview_message. waitless_go. Qed.

Lemma waitless_step_post (E : environment) (ev : new_message)
    (final_post : string) (banner : option string) :
  waitless (step_post E ev final_post banner).
Proof. unfold step_post. waitless_go. Qed.


(** *** The steps of the wizard *)

Lemma good_get_response_plain (l : label) (n : nat) :
  good false unmarked n (get_response l).
Proof.
  apply (good_weaken false false marked unmarked n n);
    [apply good_get_response | auto | discriminate | lia].
Qed.

Lemma good_wait_event_plain (l : label) (n : nat) :
  good false unmarked n (wait_event l).
Proof.
  apply (good_weaken (is_preview l) false marked unmarked n n);
    [apply good_wait_event | discriminate | discriminate | lia].
Qed.

Lemma neutral_remove_handlers (h : nat) :
  neutral (remove_event_handler h NewMessage ;;
           remove_event_handler h CallbackQuery)%wizard.
Proof. intros w. repeat split. Qed.

(** The router waits once, for a text or a press. *)
Lemma good_router (l : label) (n : nat) :
  good false unmarked n (get_response_or_callback l).
Proof.
  unfold get_response_or_callback.
  apply good_bind; [apply good_waitless, waitless_gets | intros h].
  apply good_bind; [apply good_waitless, waitless_modify; reflexivity | intros _].
  apply good_bind; [apply good_waitless, waitless_modify; reflexivity | intros _].
  apply good_bind; [apply good_waitless, waitless_modify; reflexivity | intros _].
  apply good_try_finally; [|apply neutral_remove_handlers].
  apply good_try_except_reraise.
  { intros e k H. handler_cases H; reflexivity. }
  apply good_bind.
  - apply (good_weaken false false marked unmarked n n);
      [apply good_wait_done | auto | discriminate | lia].
  - intros [t | p]; apply good_waitless.
    + apply waitless_ret.
    + apply waitless_bind; [apply waitless_answer_press | intros _].
      apply waitless_bind; [apply waitless_try_edit_press | intros _].
      apply waitless_ret.
Qed.

Create HintDb wizard.

#[local] Hint Resolve good_get_response_plain good_wait_event_plain good_router
  : wizard.

Ltac good_go :=
  repeat first
    [ solve [auto with wizard]
    | match goal with
      | |- good _ _ _ (bind _ _) => apply good_bind; [| intros; cbv beta]
      | |- good _ _ _ (try_except _ _) =>
          apply good_try_except;
          [| let e := fresh "e" in let k := fresh "k" in let H := fresh "H" in
             intros e k H; handler_cases H; (split; [| intros; reflexivity])]
      | |- good _ _ _ (if ?b then _ else _) => destruct b
      | |- good _ _ _ (match ?x with _ => _ end) => destruct x
      | |- good _ unmarked _ _ => apply good_waitless; solve [waitless_go]
      end ].

Section Steps.

Variable E : environment.
Variable ev : new_message.

Lemma good_step_preset (presets : list string) (n : nat) :
  good false unmarked n (step_preset E ev presets).
Proof. unfold step_preset. good_go. Qed.

Lemma good_step_link (n : nat) : good false unmarked n (step_link E).
Proof. unfold step_link. good_go. Qed.

Lemma good_step_filename (link : string) (n : nat) :
  good false unmarked n (step_filename E link).
Proof. unfold step_filename. good_go. Qed.

Lemma good_step_parse (link filename : string) (n : nat) :
  good false unmarked n (step_parse E ev link filename).
Proof. unfold step_parse. good_go. Qed.

Lemma good_step_rom_name (preset_chosen : bool)
    (info : Extractor.FilenameRecord) (n : nat) :
  good false unmarked n (step_rom_name E ev preset_chosen info).
Proof. unfold step_rom_name. good_go. Qed.

Lemma good_step_support (saved : option string) (n : nat) :
  good false unmarked n (step_support E ev saved).
Proof. unfold step_support. good_go. Qed.

Lemma good_step_screenshots (n : nat) :
  good false unmarked n (step_screenshots E ev).
Proof. unfold step_screenshots. good_go. Qed.

Lemma good_step_device_changelog (saved : option string) (n : nat) :
  good false unmarked n (step_device_changelog E ev saved).
Proof. unfold step_device_changelog. good_go. Qed.

Lemma good_step_source_changelog (preset_chosen : bool) (n : nat) :
  good false unmarked n (step_source_changelog E ev preset_chosen).
Proof. unfold step_source_changelog. good_go. Qed.

Lemma good_step_notes (saved : option string) (n : nat) :
  good false unmarked n (step_notes E ev saved).
Proof. unfold step_notes. good_go. Qed.

Lemma good_step_credits (saved : option string) (n : nat) :
  good false unmarked n (step_credits E ev saved).
Proof. unfold step_credits. good_go. Qed.

Lemma good_checksum_loop (vs : list variant) (i n : nat) :
  good false unmarked n (checksum_loop E ev i vs).
Proof.
  revert i; induction vs as [|v vs IH]; intros i; cbn [checksum_loop];
    good_go.
Qed.

Lemma good_step_checksums (n : nat) :
  good false unmarked n (step_checksums E ev).
Proof.
  pose proof good_checksum_loop as H.
  unfold step_checksums. good_go.
Qed.

(** Additional variants: an iteration that goes on has taken at least the
    press on the prompt, so [fuel] is never used up. *)
Lemma good_more_variants_loop (fuel n : nat) :
  n < fuel -> good false unmarked n (step_more_variants E ev fuel).
Proof.
  revert n; induction fuel as [|fuel IH]; intros n L; [lia|].
  cbn [step_more_variants].
  apply good_bind; [apply good_waitless, waitless_send | intros _].
  apply (good_weaken false false marked unmarked n n);
    [| auto | discriminate | lia].
  apply good_bind_marked.
  - apply (good_weaken (is_preview L_add_variant) false marked marked n n);
      [apply good_wait_event | discriminate | auto | lia].
  - intros p n' Hn'.
    assert (IH' : good false unmarked n' (step_more_variants E ev fuel))
      by (apply IH; lia).
    pose proof waitless_try_edit_press as T.
    apply good_bind; [apply good_waitless, waitless_answer_press | intros _].
    apply good_bind; [apply good_waitless, T | intros _].
    good_go.
Qed.

Lemma good_more_variants (n : nat) :
  good false unmarked n (more_variants E ev).
Proof.
  intros log0 w L C. unfold more_variants.
  apply (good_more_variants_loop (S (length (script w))) (length (script w)));
    [lia | lia | exact C].
Qed.

(** One iteration of the selection loop: it ends calm, and goes on only
    after a press. *)
Lemma good_selection_iteration (pv : preview) (n : nat) :
  good true is_continue n
    (selection_timeout E pv
       (button_pressed <- wait_event L_preview ;;
        answer_press button_pressed ;;
        if String.eqb (data button_pressed) "preview_confirm"
        then ret (Break, pv)
        else
          match select (data button_pressed) pv with
          | Some pv' =>
              selection_timeout E pv'
                (pv'' <- update_preview_message E pv' ;;
                 ret (Continue, pv''))
          | None => ret (Continue, pv)
          end)).
Proof.
  pose proof (waitless_update_preview_message E) as U.
  unfold selection_timeout at 1. apply good_try_except.
  - apply (good_weaken true true marked is_continue n n);
      [| auto | auto | lia].
    apply good_bind_marked; [apply (good_wait_event L_preview)|].
    intros p n' Hn'. unfold selection_timeout.
    apply good_bind; [apply good_waitless, waitless_answer_press | intros _].
    destruct (String.eqb _ _); [apply good_waitless, waitless_ret|].
    destruct (select _ _) as [pv'|]; [|apply good_waitless, waitless_ret].
    apply good_try_except.
    + apply good_bind; [apply good_waitless, U | intros pv''].
      apply good_waitless, waitless_ret.
    + intros e k H. handler_cases H. split; [|intros; reflexivity].
      apply good_waitless. waitless_go.
  - intros e k H. handler_cases H. split.
    + apply good_waitless. waitless_go.
    + intros w a. unfold bind, send, raise, modify, ret.
      destruct (send_fails E SelectionTimedOut); cbn; [discriminate|].
      now intros [= <-].
Qed.

Lemma good_selection_loop (fuel n : nat) (pv : preview) :
  n < fuel -> good false unmarked n (selection_loop E fuel pv).
Proof.
  revert n pv; induction fuel as [|fuel IH]; intros n pv L; [lia|].
  cbn [selection_loop]. intros log0 w Lw C. rewrite bind_run.
  destruct (good_selection_iteration pv n log0 w Lw C) as ([G1 D] & G2 & G3).
  match goal with
  | |- context [selection_timeout E pv ?m w] =>
      destruct (selection_timeout E pv m w) as [[[[|] pv'] | e | |] w1]
  end; cbn [fst snd] in *.
  - specialize (G3 (Continue, pv') eq_refl eq_refl).
    destruct (IH (length (script w1)) pv' ltac:(lia) log0 w1 ltac:(lia) G1)
      as (K1 & K2 & _).
    split; [exact K1|]. split; [lia | discriminate].
  - split; [exact G1|]. split; [exact G2 | discriminate].
  - split; [now apply calm_settled|]. split; [exact G2 | discriminate].
  - split; [exact G1|]. split; [exact G2 | discriminate].
  - contradiction.
Qed.

Lemma good_selection (pv : preview) (n : nat) :
  good false unmarked n (selection E pv).
Proof.
  intros log0 w L C. unfold selection.
  apply (good_selection_loop (S (length (script w))) (length (script w)));
    [lia | lia | exact C].
Qed.

Lemma good_step_publish (n : nat) : good false unmarked n (step_publish E ev).
Proof.
  pose proof good_selection as S.
  pose proof (waitless_make_banners E) as B.
  pose proof (waitless_update_preview_message E) as U.
  pose proof (waitless_step_post E ev) as P.
  unfold step_publish.
  apply good_bind; [apply good_waitless, waitless_send | intros _].
  apply good_bind; [apply good_waitless, waitless_draft_get | intros d].
  apply good_bind; [apply good_waitless, B | intros banners].
  apply good_bind; [apply good_waitless, U | intros pv0].
  apply good_bind; [apply S | intros pv].
  apply good_bind; [apply good_waitless, P | intros _].
  apply good_waitless, waitless_db_modify.
Qed.

Lemma neutral_close_conversation :
  neutral (modify (set_conversations (fun c => c ∖ {[chat_id ev]}))).
Proof. intros w. repeat split. Qed.

Lemma good_with_conversation {A} (body : M A) (n : nat) :
  good false unmarked n body ->
  good false unmarked n (with_conversation ev body).
Proof.
  intros G. unfold with_conversation.
  apply good_bind; [apply good_waitless, waitless_gets | intros busy].
  destruct busy; [apply good_waitless, waitless_raise|].
  apply good_bind; [apply good_waitless, waitless_modify; reflexivity | intros _].
  apply good_try_finally; [exact G | apply neutral_close_conversation].
Qed.

Lemma good_wizard (saved : option saved_row) (presets : list string) (n : nat) :
  good false unmarked n (wizard E ev saved presets).
Proof.
  pose proof good_step_preset. pose proof good_step_link.
  pose proof good_step_filename. pose proof good_step_parse.
  pose proof good_step_rom_name. pose proof good_more_variants.
  pose proof good_step_support. pose proof good_step_screenshots.
  pose proof good_step_device_changelog. pose proof good_step_source_changelog.
  pose proof good_step_notes. pose proof good_step_credits.
  pose proof good_step_checksums. pose proof good_step_publish.
  unfold wizard.
  apply good_bind; [apply good_waitless, waitless_modify; reflexivity | intros _].
  repeat (apply good_bind; [solve [auto] | intros]).
  auto.
Qed.

End Steps.

End WizardLogic.

(** ** The /new command *)

Module WizardProps.
Import PyStr Py Bot BotSpec Scenario WizardLogic.
Local Open Scope wizard_scope.

Lemma events_since_app (w w' : world) (new : list event) :
  log w' = (new ++ log w)%list -> events_since w w' = new.
Proof.
  intros E. unfold events_since. rewrite E, length_app.
  replace (length new + length (log w) - length (log w)) with (length new) by lia.
  rewrite firstn_app, firstn_all, Nat.sub_diag. cbn. apply app_nil_r.
Qed.

(** Running the handler by hand *)
Ltac run :=
  cbv beta iota zeta delta
    [bind gets ret raise return_ modify fst snd add_log conv_key
     active_conversations conversations event_builders next_handler db
     drafts script log].

Ltac send_cases E :=
  repeat match goal with
         | |- context [send_fails E ?m] => destruct (send_fails E m); run
         end.

(** C7, as the specification states it, fails: user 7 has a session in chat
    10 and has reached the daily limit; a second /new there is answered by
    the message of the limit and not by the conflict message.  Nothing but
    the log changes. *)
Lemma second_request_over_limit :
  is_Some (active_conversations (in_session two_posts_today)
             !! conv_key request)
  /\ new_post_handler bot_env request (in_session two_posts_today)
     = (Returned, add_log (Replied LimitReached) (in_session two_posts_today))
  /\ ~ In (Replied AlreadyActive)
          (log (snd (new_post_handler bot_env request
                       (in_session two_posts_today)))).
Proof.
  split; [eexists; reflexivity|].
  assert (E : new_post_handler bot_env request (in_session two_posts_today)
              = (Returned, add_log (Replied LimitReached)
                                   (in_session two_posts_today)))
    by (vm_compute; reflexivity).
  split; [exact E|]. rewrite E. cbn. intros [H | [H | []]]; discriminate H.
Qed.

(** The call of the handler for a request whose key is taken *)
Lemma handler_call_on_taken_key (E : environment) (ev : new_message)
    (w : world) :
  is_Some (active_conversations w !! conv_key ev) ->
  same_but_log w (snd (new_post_handler E ev w))
  /\ (fst (new_post_handler E ev w) = Returned
      \/ exists e, fst (new_post_handler E ev w) = Exc e)
  /\ (fst (new_post_handler E ev w) = Returned ->
      log (snd (new_post_handler E ev w))
      = (refusal_log E ev (db w) ++ log w)%list).
Proof.
  intros A. destruct w as [ac cv eb nh d dr sc lg]. cbn in A.
  unfold conv_key in A.
  unfold new_post_handler, gates, refusal_log, same_but_log, reply.
  run.
  destruct (is_banned (sender_id ev) d); run.
  { send_cases E; repeat split; eauto; try (intros H0; discriminate H0). }
  destruct (is_allowed_chat (chat_id ev) d || (is_private ev && pm_enabled d));
    destruct (is_owner (sender_id ev) d); cbn [negb andb]; run;
    try destruct (check_post_limit _ _ _) as [[|] remaining]; cbn [negb]; run;
    send_cases E; rewrite ?(bool_decide_eq_true_2 _ A); run; send_cases E;
    repeat split; eauto; try (intros H0; discriminate H0).
Qed.

(** No wait of a session looks at the text it is given. *)
Lemma waits_take_any_text (t : string) (s : list answer) (l : label)
    (w : world) :
  script w = Text t :: s ->
  (fst (get_response l w) = Normal t /\ script (snd (get_response l w)) = s)
  /\ (fst (get_response_or_callback l w) = Normal (Message t)
      /\ script (snd (get_response_or_callback l w)) = s).
Proof.
  intros S. destruct w as [ac cv eb nh d dr sc lg]. cbn in S. subst sc.
  split; split; reflexivity.
Qed.

(** C7, amended. A /new request whose session key is in the registry is
    an incoming message of the chat, and it reaches two listeners.  The call
    of [new_post_handler] for it starts no session and changes nothing but
    the log: registry, drafts, database (statistics included),
    conversations, handlers and script are as before; when its replies go
    through it returns having logged [refusal_log]: the conflict message when
    the sender passes the checks of ban, chat and daily limit, the message of
    the check that stops it otherwise.  The running session is the other
    listener: it goes on from its pending wait in the world the call has
    left, with the text of the request as the next thing its user has said,
    and a wait for a text, as a wait for a text or a press, returns that
    text for the user's answer.  What the session does with it is what it
    does with any answer: its draft, its saved data and its entry in the
    registry are not protected from the request. *)
Theorem second_request_is_refused (E : environment) (ev : new_message)
    (w : world) :
  is_Some (active_conversations w !! conv_key ev) ->
  (same_but_log w (snd (new_post_handler E ev w))
   /\ (fst (new_post_handler E ev w) = Returned
       \/ exists e, fst (new_post_handler E ev w) = Exc e)
   /\ (fst (new_post_handler E ev w) = Returned ->
       log (snd (new_post_handler E ev w))
       = (refusal_log E ev (db w) ++ log w)%list))
  /\ (forall (t : string) (rest : M unit),
        new_during_session E ev t rest w
        = rest (set_script (Text t :: script w)
                  (snd (new_post_handler E ev w))))
  /\ (forall (t : string) (l : label),
        let w' := set_script (Text t :: script w)
                    (snd (new_post_handler E ev w)) in
        (fst (get_response l w') = Normal t
         /\ script (snd (get_response l w')) = script w)
        /\ (fst (get_response_or_callback l w') = Normal (Message t)
            /\ script (snd (get_response_or_callback l w')) = script w)).
Proof.
  intros A. pose proof (handler_call_on_taken_key E ev w A) as H.
  split; [exact H|]. destruct H as [S _].
  destruct S as (_ & _ & _ & _ & _ & _ & Sc). split.
  - intros t rest. unfold new_during_session. cbv zeta. now rewrite Sc.
  - intros t l w'. apply waits_take_any_text.
    subst w'. now destruct (snd (new_post_handler E ev w)).
Qed.

Lemma second_request_is_refused_witness :
  (same_but_log (in_session settings)
     (snd (new_post_handler bot_env request (in_session settings)))
   /\ (fst (new_post_handler bot_env request (in_session settings)) = Returned
       \/ exists e,
            fst (new_post_handler bot_env request (in_session settings)) = Exc e)
   /\ (fst (new_post_handler bot_env request (in_session settings)) = Returned ->
       log (snd (new_post_handler bot_env request (in_session settings)))
       = (refusal_log bot_env request (db (in_session settings))
          ++ log (in_session settings))%list))
  /\ (forall (t : string) (rest : M unit),
        new_during_session bot_env request t rest (in_session settings)
        = rest (set_script (Text t :: script (in_session settings))
                  (snd (new_post_handler bot_env request (in_session settings)))))
  /\ (forall (t : string) (l : label),
        let w' := set_script (Text t :: script (in_session settings))
                    (snd (new_post_handler bot_env request (in_session settings))) in
        (fst (get_response l w') = Normal t
         /\ script (snd (get_response l w')) = script (in_session settings))
        /\ (fst (get_response_or_callback l w') = Normal (Message t)
            /\ script (snd (get_response_or_callback l w'))
               = script (in_session settings))).
Proof.
  apply (second_request_is_refused bot_env request (in_session settings)).
  eexists. reflexivity.
Defined.

(** A second /new at the prompt for the link.  User 7 sends /new in chat
    10; the session opens and asks for the link; the next message of the
    user is /new again.  The session takes it for the link, finds that it
    is none, says so and ends: the key has left the registry and the draft
    is gone. *)
Example second_request_ends_the_session :
  fst (new_post_handler bot_env request (idle [Text "/new"])) = Returned
  /\ log (snd (new_post_handler bot_env request (idle [Text "/new"])))
     = [Sent (Info "That doesn't look like a valid link. Please start again with /new.");
        Awaited L_link (Text "/new"); Sent (Prompt L_link);
        Replied (Remaining 2)]
  /\ active_conversations
       (snd (new_post_handler bot_env request (idle [Text "/new"])))
     !! conv_key request = None
  /\ drafts (snd (new_post_handler bot_env request (idle [Text "/new"])))
     !! conv_key request = None.
Proof.
  split; [vm_compute; reflexivity|].
  split; [vm_compute; reflexivity|].
  split; vm_compute; reflexivity.
Qed.

(** With a transport that refuses nothing and a sender who passes the
    checks, the answer is the conflict message. *)
Example second_request_conflict :
  new_post_handler bot_env request (in_session settings)
  = (Returned,
     add_log (Replied AlreadyActive)
       (add_log (Replied (Remaining 2)) (in_session settings))).
Proof. vm_compute. reflexivity. Qed.

(** The [finally] block of the handler: the key is out of the registry
    after it, and nothing else has changed. *)
Lemma release_run (ev : new_message) (w : world) :
  exists w',
    (active <- gets (fun w =>
                 bool_decide (is_Some (active_conversations w !! conv_key ev))) ;;
     if active then modify (set_active (delete (conv_key ev))) else ret tt) w
    = (Normal tt, w')
    /\ active_conversations w' !! conv_key ev = None
    /\ log w' = log w /\ script w' = script w.
Proof.
  unfold bind, gets, modify, ret.
  destruct (bool_decide _) eqn:B.
  - eexists. split; [reflexivity|]. cbn. split; [apply lookup_delete_eq | auto].
  - eexists. split; [reflexivity|]. split; [|auto].
    apply bool_decide_eq_false_1 in B.
    destruct (active_conversations w !! conv_key ev) eqn:L; [|reflexivity].
    exfalso. apply B. eauto.
Qed.

Lemma reply_run (E : environment) (m : msg) (w : world) :
  reply E m w
  = match send_fails E m with
    | Some e => (Exc e, w)
    | None => (Normal tt, add_log (Replied m) w)
    end.
Proof. unfold reply. now destruct (send_fails E m). Qed.

Lemma quiet_replied (m : msg) (new : list event) :
  quiet new -> quiet (Replied m :: new).
Proof. intros Q. apply quiet_cons; [discriminate | exact Q]. Qed.

(** The [try] of the handler with its [except] clauses, before [finally] *)
Lemma attempt_spec (E : environment) (ev : new_message)
    (saved : option saved_row) (presets : list string) (w : world) :
  let attempt :=
    try_except
      (with_conversation ev (wizard E ev saved presets))
      (fun e =>
         if exn_eqb e TimeoutError then Some (reply E CommandTimedOut)
         else if exn_eqb e AlreadyInConversationError
         then Some (reply E AlreadyInConversation)
         else if is_Exception e then Some (reply E (ErrorOccurred e))
         else None) in
  fst (attempt w) <> Diverged
  /\ exists new,
       log (snd (attempt w)) = (new ++ log w)%list
       /\ forall l, is_preview l = false ->
                    send_fails E CommandTimedOut = None ->
                    In (timeout_at l) new ->
                    fst (attempt w) = Normal tt
                    /\ exists older,
                         new = Replied CommandTimedOut :: timeout_at l :: older.
Proof.
  intros attempt. subst attempt. unfold try_except.
  pose proof (good_with_conversation ev _ (length (script w))
                (good_wizard E ev saved presets (length (script w)))
                (log w) w (Nat.le_refl _) (calm_refl w)) as (G & _ & _).
  cbn beta iota in G.
  destruct (with_conversation ev (wizard E ev saved presets) w)
    as [[[] | e | |] w1]; cbn [fst snd] in *.
  - split; [discriminate|]. destruct G as [new [El Q]].
    exists new. split; [exact El|]. intros l P _ H. apply Q in H. congruence.
  - assert (Calm : forall m,
              calm (log w) w1 ->
              fst (reply E m w1) <> Diverged
              /\ exists new,
                   log (snd (reply E m w1)) = (new ++ log w)%list
                   /\ quiet new).
    { intros m [new [El Q]]. rewrite reply_run.
      destruct (send_fails E m); cbn [fst snd].
      - split; [discriminate|]. now exists new.
      - split; [discriminate|]. exists (Replied m :: new).
        split; [cbn; now rewrite El | now apply quiet_replied]. }
    assert (Contra : forall r : outcome unit * world,
              fst r <> Diverged
              /\ (exists new, log (snd r) = (new ++ log w)%list /\ quiet new) ->
              fst r <> Diverged
              /\ exists new,
                   log (snd r) = (new ++ log w)%list
                   /\ forall l, is_preview l = false ->
                                send_fails E CommandTimedOut = None ->
                                In (timeout_at l) new ->
                                fst r = Normal tt
                                /\ exists older,
                                     new = Replied CommandTimedOut
                                           :: timeout_at l :: older).
    { intros r [D [new [El Q]]]. split; [exact D|]. exists new.
      split; [exact El|]. intros l P _ H. apply Q in H. congruence. }
    destruct e; cbn [exn_eqb is_Exception];
      try (apply Contra, Calm; exact G);
      try (apply Contra; split; [discriminate | exact G]).
    destruct G as [G | (l' & new & P & El & Q)];
      [apply Contra, Calm; exact G|].
    rewrite reply_run. destruct (send_fails E CommandTimedOut) eqn:SF;
      cbn [fst snd].
    + split; [discriminate|]. exists (timeout_at l' :: new).
      split; [exact El|]. intros l _ H. discriminate H.
    + split; [discriminate|].
      exists (Replied CommandTimedOut :: timeout_at l' :: new).
      split; [cbn; now rewrite El|].
      intros l Pl _ [H | [H | H]]; [discriminate H | |].
      * injection H as <-. split; [reflexivity | now exists new].
      * apply Q in H. congruence.
  - split; [discriminate|]. destruct G as [new [El Q]].
    exists new. split; [exact El|]. intros l P _ H. apply Q in H. congruence.
  - contradiction.
Qed.

(** C8, as the specification states it, fails: when the wait of the
    preview selection times out, the loop is left and the wizard goes on to
    post with the current options; the session ends normally, the post
    count is raised and no time-out is reported. *)
Lemma preview_timeout_still_posts :
  fst (new_post_handler bot_env request
         (idle (up_to_preview ++ [Fails TimeoutError]))) = Normal tt
  /\ firstn 8 (log (snd (new_post_handler bot_env request
                           (idle (up_to_preview ++ [Fails TimeoutError])))))
     = [Sent (FinalPost "default" None);
        Sent (Info "Here is your post as it appears in the channel:");
        Sent (Info "Added to device index!");
        Indexed "cancunf" "Axion" "https://t.me/c/1/2";
        Sent (Info "Posted to channel successfully!");
        Posted "default" None;
        Sent SelectionTimedOut;
        timeout_at L_preview]
  /\ ~ In (Replied CommandTimedOut)
          (log (snd (new_post_handler bot_env request
                       (idle (up_to_preview ++ [Fails TimeoutError])))))
  /\ post_limits (db (snd (new_post_handler bot_env request
                             (idle (up_to_preview ++ [Fails TimeoutError])))))
       !! (7%Z, "2026-11-06") = Some 1%Z.
Proof.
  split; [vm_compute; reflexivity|]. split; [vm_compute; reflexivity|].
  split; [|vm_compute; reflexivity].
  intros H.
  assert (F : forallb (fun e => match e with
                                | Replied CommandTimedOut => false
                                | _ => true
                                end)
                (log (snd (new_post_handler bot_env request
                             (idle (up_to_preview ++ [Fails TimeoutError])))))
              = true) by (vm_compute; reflexivity).
  rewrite forallb_forall in F. specialize (F _ H). discriminate F.
Qed.

(** The [try] statement of the handler, [finally] included *)
Lemma session_spec (E : environment) (ev : new_message)
    (saved : option saved_row) (presets : list string) (w : world) :
  active_conversations (snd (session E ev saved presets w)) !! conv_key ev = None
  /\ fst (session E ev saved presets w) <> Diverged
  /\ log (snd (session E ev saved presets w))
     = (events_since w (snd (session E ev saved presets w)) ++ log w)%list
  /\ forall l,
       is_preview l = false ->
       send_fails E CommandTimedOut = None ->
       In (timeout_at l) (events_since w (snd (session E ev saved presets w))) ->
       fst (session E ev saved presets w) = Normal tt
       /\ exists older,
            events_since w (snd (session E ev saved presets w))
            = Replied CommandTimedOut :: timeout_at l :: older.
Proof.
  unfold session, try_finally.
  destruct (attempt_spec E ev saved presets w) as (D & new & El & T).
  cbv zeta in D, El, T.
  match goal with
  | |- context [try_except ?m ?h w] =>
      destruct (try_except m h w) as [out w1]
  end.
  cbn [fst snd] in *.
  destruct (release_run ev w1) as (w2 & -> & R & Rl & Rs).
  cbn [fst snd].
  assert (Ev : events_since w w2 = new)
    by (apply events_since_app; congruence).
  rewrite Ev. split; [exact R|]. split; [exact D|]. split; [congruence|].
  intros l P S H. now apply T.
Qed.


(** C8, amended. The session key is out of the registry when the [try]
    statement of the handler is left, whatever its outcome, and the
    statement is always left.  When a wait other than the selection of the
    preview times out (those of the additional variants and of the
    checksums among them) and the reply goes through, that time-out is the
    last thing the wizard did: the handler answers that the command timed
    out and ends. *)
Theorem session_releases_and_times_out (E : environment) (ev : new_message)
    (saved : option saved_row) (presets : list string) (w : world) :
  active_conversations (snd (session E ev saved presets w)) !! conv_key ev = None
  /\ fst (session E ev saved presets w) <> Diverged
  /\ log (snd (session E ev saved presets w))
     = (events_since w (snd (session E ev saved presets w)) ++ log w)%list
  /\ forall l,
       is_preview l = false ->
       send_fails E CommandTimedOut = None ->
       In (timeout_at l) (events_since w (snd (session E ev saved presets w))) ->
       fst (session E ev saved presets w) = Normal tt
       /\ exists older,
            events_since w (snd (session E ev saved presets w))
            = Replied CommandTimedOut :: timeout_at l :: older.
Proof. exact (session_spec E ev saved presets w). Qed.

Lemma session_releases_and_times_out_witness :
  fst (session bot_env request None [] (idle up_to_variant_link)) = Normal tt
  /\ exists older,
       events_since (idle up_to_variant_link)
         (snd (session bot_env request None [] (idle up_to_variant_link)))
       = Replied CommandTimedOut :: timeout_at L_variant_link :: older.
Proof.
  refine (proj2 (proj2 (proj2
            (session_releases_and_times_out bot_env request None []
               (idle up_to_variant_link)))) L_variant_link _ _ _).
  - reflexivity.
  - reflexivity.
  - vm_compute. right. left. reflexivity.
Defined.

(** A time-out while the link of an additional variant is awaited *)
Example variant_link_timeout :
  fst (new_post_handler bot_env request (idle up_to_variant_link)) = Normal tt
  /\ firstn 2 (log (snd (new_post_handler bot_env request
                           (idle up_to_variant_link))))
     = [Replied CommandTimedOut; timeout_at L_variant_link]
  /\ active_conversations
       (snd (new_post_handler bot_env request (idle up_to_variant_link)))
     = ∅.
Proof.
  split; [vm_compute; reflexivity|].
  split; vm_compute; reflexivity.
Qed.


End WizardProps.

(** ** The database functions *)

Module BotDbProps.
Import PyStr Py Bot BotDb.
Import PyStrFacts.


Lemma is_allowed_chat_true (c : Z) (d : database) :
  is_allowed_chat c d = true <-> c ∈ allowed_chats d.
Proof. unfold is_allowed_chat. apply bool_decide_eq_true. Qed.









End BotDbProps.

(** ** The commands other than /new *)

Module CommandsProps.
Import PyStr Py Bot BotDb Commands BotSpec.
Import BotDbProps.





Section Handlers.

Variable int : string -> option Z.
Variable E : environment.
Variable ev : new_message.
Variable text : string.





End Handlers.




End CommandsProps.

Module CancelProps.
Import PyStr Py Bot BotDb Commands BotSpec.
Import BotDbProps CommandsProps.

Section Cancel.

Variable int : string -> option Z.
Variable E : environment.
Variable ev : new_message.
Variable text : string.
Variable cancel_fails : Z -> option exn.





End Cancel.



End CancelProps.

Module BanProps.
Import PyStr Py Bot BotDb Commands BotSpec.
Import BotDbProps CommandsProps.

Section Ban.

Variable int : string -> option Z.
Variable E : environment.
Variable ev : new_message.
Variable text : string.
Variable get_entity_fails : Z -> option exn.



End Ban.

End BanProps.

(** ** The checks of /new *)

Module GateProps.
Import PyStr Py Bot BotDb BotSpec CommandSpec.
Import BotDbProps CommandsProps.








End GateProps.

(** ** The device index *)

Module IndexDbProps.
Import PyStr Re Py IndexDb.
Import PyStrFacts.


Lemma sfilter_id (p : ascii -> bool) (s : string) :
  sforall p s = true -> sfilter p s = s.
Proof.
  induction s as [|c r IH]; [reflexivity|]. simpl. intros H.
  apply andb_true_iff in H as [Hc Hr]. rewrite Hc. f_equal. now apply IH.
Qed.













End IndexDbProps.

(** ** The font size *)

Module BgenProps.
Import Py Bgen.
Local Open Scope Z_scope.



End BgenProps.

(** ** More on [parse_filename] *)

Module ExtractorMore.
Import PyStr Re Py Datetime Extractor DateSpec ExtractorSpec.
Import PyStrFacts DatetimeFacts ExtractorFacts ExtractorProps.




















End ExtractorMore.

(** ** More on the two versions of [parse_filename] *)

Module IndexMore.
Import PyStr Re Py Datetime Extractor ExtractorSpec.
Import PyStrFacts ExtractorFacts ExtractorProps IndexProps.




End IndexMore.

(** ** More on the database functions *)

Module BotDbMore.
Import PyStr Py Bot BotDb.
Import BotDbProps.



End BotDbMore.

(** ** What /new leaves alone *)

Module FrameProps.
Import PyStr Py Bot BotSpec FrameSpec.
Import WizardLogic.

Section Frame.

Variable R : world -> world -> Prop.
Hypothesis R_refl : forall w, R w w.
Hypothesis R_trans : forall w1 w2 w3, R w1 w2 -> R w2 w3 -> R w1 w3.
Hypothesis R_log : forall e w, R w (add_log e w).
Hypothesis R_script : forall s w, R w (set_script s w).
Hypothesis R_builders : forall f w, R w (set_builders f w).
Hypothesis R_next : forall n w, R w (set_next_handler n w).

Lemma frames_ret {A} (a : A) : frames R (ret a).
Proof. intros w. apply R_refl. Qed.

Lemma frames_raise {A} (e : exn) : frames R (@raise A e).
Proof. intros w. apply R_refl. Qed.

Lemma frames_return {A} : frames R (@return_ A).
Proof. intros w. apply R_refl. Qed.

Lemma frames_gets {A} (f : world -> A) : frames R (gets f).
Proof. intros w. apply R_refl. Qed.

Lemma frames_lift {A} (r : result A) : frames R (lift r).
Proof. destruct r; intros w; apply R_refl. Qed.

Lemma frames_diverged {A} : frames R (fun w => (@Diverged A, w)).
Proof. intros w. apply R_refl. Qed.

Lemma frames_modify (f : world -> world) :
  (forall w, R w (f w)) -> frames R (modify f).
Proof. intros H w. apply H. Qed.

Lemma frames_bind {A B} (m : M A) (k : A -> M B) :
  frames R m -> (forall a, frames R (k a)) -> frames R (bind m k).
Proof.
  intros Hm Hk w. rewrite bind_run. specialize (Hm w).
  destruct (m w) as [[a | e | |] w1]; cbn [snd] in *; try exact Hm.
  eapply R_trans; [exact Hm | apply Hk].
Qed.

Lemma frames_try_except {A} (m : M A) (h : exn -> option (M A)) :
  frames R m -> (forall e k, h e = Some k -> frames R k) ->
  frames R (try_except m h).
Proof.
  intros Hm Hh w. unfold try_except. specialize (Hm w).
  destruct (m w) as [[a | e | |] w1]; cbn [snd] in *; try exact Hm.
  destruct (h e) as [k|] eqn:K; [|exact Hm].
  eapply R_trans; [exact Hm | now apply (Hh e k)].
Qed.

Lemma frames_try_finally {A} (m : M A) (fin : M unit) :
  frames R m -> frames R fin -> frames R (try_finally m fin).
Proof.
  intros Hm Hf w. unfold try_finally. specialize (Hm w).
  destruct (m w) as [o w1]. specialize (Hf w1). cbn [snd] in *.
  destruct (fin w1) as [[[] | e | |] w2]; cbn [snd] in *;
    eapply R_trans; eauto.
Qed.

Lemma frames_send (E : environment) (m : msg) : frames R (send E m).
Proof.
  unfold send. destruct (send_fails E m);
    [apply frames_raise | apply frames_modify, R_log].
Qed.

Lemma frames_reply (E : environment) (m : msg) : frames R (reply E m).
Proof.
  unfold reply. destruct (send_fails E m);
    [apply frames_raise | apply frames_modify, R_log].
Qed.

Lemma frames_edit_message (E : environment) (m : msg) :
  frames R (edit_message E m).
Proof.
  unfold edit_message. destruct (edit_fails_on E m);
    [apply frames_raise | apply frames_modify, R_log].
Qed.

Lemma frames_answer_press (p : press) : frames R (answer_press p).
Proof.
  unfold answer_press. destruct (answer_fails p);
    [apply frames_raise | apply frames_ret].
Qed.

Lemma frames_edit_press (p : press) (m : msg) : frames R (edit_press p m).
Proof.
  unfold edit_press. destruct (edit_fails p);
    [apply frames_raise | apply frames_modify, R_log].
Qed.

Lemma frames_get_response (l : label) : frames R (get_response l).
Proof.
  intros w. unfold get_response.
  destruct (next_text (script w)) as [[t | e] r]; cbn [snd];
    (eapply R_trans; [apply R_script | apply R_log]).
Qed.

Lemma frames_wait_event (l : label) : frames R (wait_event l).
Proof.
  intros w. unfold wait_event.
  destruct (next_press (script w)) as [[t | e] r]; cbn [snd];
    (eapply R_trans; [apply R_script | apply R_log]).
Qed.

Lemma frames_wait_done (l : label) : frames R (wait_done l).
Proof.
  intros w. unfold wait_done.
  destruct (next_any (script w)) as [[t | p | e] r]; cbn [snd];
    (eapply R_trans; [apply R_script | apply R_log]).
Qed.


(** *** The wizard, step by step *)

Variable E : environment.
Variable ev : new_message.

(** The updates of the database [R] allows *)
Variable okdb : (database -> database) -> Prop.
Hypothesis R_db : forall f w, okdb f -> R w (set_db f w).
Hypothesis ok_save :
  forall a b c d, okdb (save_user_data (sender_id ev) a b c d).
Hypothesis ok_stats :
  forall now un fn ln, okdb (update_user_stats now (sender_id ev) un fn ln 0 None).

Hypothesis R_drafts_alter :
  forall f w, R w (set_drafts (alter f (conv_key ev)) w).
Hypothesis R_drafts_insert :
  forall p w, R w (set_drafts (insert (conv_key ev) p) w).
Hypothesis R_drafts_delete :
  forall w, R w (set_drafts (delete (conv_key ev)) w).
Hypothesis R_active_insert :
  forall v w, R w (set_active (insert (conv_key ev) v) w).
Hypothesis R_active_delete :
  forall w, R w (set_active (delete (conv_key ev)) w).
Hypothesis R_conv_open :
  forall w, R w (set_conversations (fun c => {[chat_id ev]} ∪ c) w).
Hypothesis R_conv_close :
  forall w, R w (set_conversations (fun c => c ∖ {[chat_id ev]}) w).

Ltac atom :=
  first [ apply R_log | apply R_script | apply R_builders | apply R_next
        | apply R_drafts_alter | apply R_drafts_insert | apply R_drafts_delete
        | apply R_active_insert | apply R_active_delete
        | apply R_conv_open | apply R_conv_close
        | apply R_db; first [apply ok_save | apply ok_stats] ].

Lemma frames_draft_modify (f : post_data -> post_data) :
  frames R (draft_modify ev f).
Proof. apply frames_modify. intros w. atom. Qed.

Lemma frames_draft_get : frames R (draft_get ev).
Proof. apply frames_gets. Qed.

Lemma frames_db_modify (f : database -> database) :
  okdb f -> frames R (db_modify f).
Proof. intros H. apply frames_modify. intros w. now apply R_db. Qed.

Ltac go :=
  repeat first
    [ apply frames_ret | apply frames_raise | apply frames_return
    | apply frames_gets | apply frames_lift | apply frames_diverged
    | apply frames_send | apply frames_reply | apply frames_edit_message
    | apply frames_answer_press | apply frames_edit_press
    | apply frames_get_response | apply frames_wait_event
    | apply frames_wait_done
    | apply frames_draft_modify | apply frames_draft_get
    | apply frames_db_modify; first [apply ok_save | apply ok_stats]
    | assumption
    | apply frames_bind; [| intros; cbv beta zeta]
    | apply frames_try_finally
    | apply frames_try_except;
      [| let e := fresh "e" in let k := fresh "k" in let H := fresh "H" in
         intros e k H; handler_cases H]
    | apply frames_modify; intros; atom
    | match goal with
      | |- frames _ (if ?b then _ else _) => destruct b
      | |- frames _ (match ?x with _ => _ end) => destruct x
      end ].
























Lemma frames_with_conversation {A} (body : M A) :
  frames R body -> frames R (with_conversation ev body).
Proof. intros B. unfold with_conversation. go. Qed.

(** The handlers and the [finally] block of the [try] statement *)
Lemma frames_session (body : M unit) :
  frames R body ->
  frames R
    (try_finally
       (try_except body
          (fun e =>
             if exn_eqb e TimeoutError then Some (reply E CommandTimedOut)
             else if exn_eqb e AlreadyInConversationError
             then Some (reply E AlreadyInConversation)
             else if is_Exception e then Some (reply E (ErrorOccurred e))
             else None))
       (active <- gets (fun w =>
                    bool_decide (is_Some (active_conversations w !! conv_key ev))) ;;
        if active then modify (set_active (delete (conv_key ev))) else ret tt)%wizard).
Proof. intros B. go. Qed.













End Frame.






End FrameProps.

Module IsolationProps.
Import PyStr Py Bot BotSpec FrameSpec.
Import WizardLogic FrameProps.









End IsolationProps.
